(** * docker-notify: the watch loop and the webhook dispatcher

    A shallow embedding of [main.go] of lon9/docker-notify: the daemon
    subscribes to the Docker event stream, turns every [start] and [die]
    event into a Slack-style webhook message and posts it to the
    configured Slack and Discord endpoints.

    Go strings are byte strings and are modelled by [string]; [int64]
    values are only copied by the program and are modelled by [Z]; Go
    maps are [gmap]s; the nil-able [error] interface is [option error]. *)

From Stdlib Require Import ZArith Ascii String.
From stdpp Require Import base option strings list gmap.

(** ** The fragment of package [fmt] used by the program *)

Module fmt.

(** What [fmt] appends for operands that no verb consumed. *)
Definition extra (a : list string) : string :=
  match a with
  | [] => ""
  | _ :: _ => "%!(EXTRA " +:+ String.concat ", " (map (fun x => "string=" +:+ x) a) +:+ ")"
  end.

(** [plain format] holds when the only directives of [format] are
    [%s] and [%%]: the fragment of the format language that the
    model below covers. *)
Fixpoint plain (format : string) : bool :=
  match format with
  | EmptyString => true
  | String c rest =>
      if Ascii.eqb c "%" then
        match rest with
        | EmptyString => false
        | String v rest' => (Ascii.eqb v "s" || Ascii.eqb v "%") && plain rest'
        end
      else plain rest
  end.

(** [fmt.Sprintf] on string operands.  A [%s] prints the next operand
    ([%!s(MISSING)] when none is left), [%%] prints a percent sign,
    other bytes are copied.  Formats outside [plain] are not modelled:
    there the function copies the directive unchanged. *)
Fixpoint Sprintf (format : string) (a : list string) : string :=
  match format with
  | EmptyString => extra a
  | String c rest =>
      if Ascii.eqb c "%" then
        match rest with
        | EmptyString => String c EmptyString
        | String v rest' =>
            if Ascii.eqb v "s" then
              match a with
              | x :: a' => x +:+ Sprintf rest' a'
              | [] => "%!s(MISSING)" +:+ Sprintf rest' []
              end
            else if Ascii.eqb v "%" then String "%" (Sprintf rest' a)
            else String c (String v (Sprintf rest' a))
        end
      else String c (Sprintf rest a)
  end.

End fmt.

(** ** Package [io]: readers *)

(** Go's [error] values are opaque to the program, which only prints
    them; an error is represented by the text [Error()] returns. *)
Definition error := string.

Module io.

(** An [io.Reader], seen through the results of its successive [Read]
    calls: some bytes and more to come, the end of the stream, or a
    failure. *)
Inductive Reader :=
| EOF
| Data (chunk : string) (next : Reader)
| Failed (e : error).

End io.

Module ioutil.

(** [ioutil.ReadAll]: reads until the end of the stream or the first
    error and returns the bytes read so far; the end of the stream is
    not reported as an error. *)
Fixpoint ReadAll (r : io.Reader) : string * option error :=
  match r with
  | io.EOF => ("", None)
  | io.Data chunk next =>
      let '(b, err) := ReadAll next in (chunk +:+ b, err)
  | io.Failed e => ("", Some e)
  end.

End ioutil.

(** ** The Docker event message (package [events]) *)

Module events.

(** The struct type [events.Actor]; the name [Actor] is kept for the
    field of [Message]. *)
Record ActorT := {
  Actor_ID : string;
  Attributes : gmap string string
}.

Record Message := {
  Status : string;
  ID : string;
  From : string;
  Actor : ActorT;
  Time : Z
}.

End events.

(** ** Constants *)

Definition Start : string := "start".
Definition Die : string := "die".
Definition SlackURLEnv : string := "SLACK_URL".
Definition DiscordURLEnv : string := "DISCORD_URL".
Definition StartColor : string := "#9ccc65".
Definition DieColor : string := "#c62828".

(** ** The payload model *)

Record Field := {
  Field_Title : string;
  Value : string;
  Short : bool
}.

Record Attachment := {
  Fallback : string;
  Pretext : string;
  Color : string;
  Title : string;
  TitleLink : string;
  Text : string;
  AuthorName : string;
  AuthorLink : string;
  AuthorIcon : string;
  Footer : string;
  FooterIcon : string;
  TS : Z;
  Fields : list Field
}.

Record Message := {
  Message_Text : string;
  Attachments : list Attachment
}.

(** The composite literal [Attachment{Title: t, Color: c, TS: ts}]:
    every field that is not named gets its zero value. *)
Definition Attachment_lit (title color : string) (ts : Z) : Attachment :=
  {| Fallback := ""; Pretext := ""; Color := color; Title := title;
     TitleLink := ""; Text := ""; AuthorName := ""; AuthorLink := "";
     AuthorIcon := ""; Footer := ""; FooterIcon := ""; TS := ts;
     Fields := [] |}.

(** The assignment [a.Text = s]. *)
Definition set_Text (a : Attachment) (s : string) : Attachment :=
  {| Fallback := Fallback a; Pretext := Pretext a; Color := Color a;
     Title := Title a; TitleLink := TitleLink a; Text := s;
     AuthorName := AuthorName a; AuthorLink := AuthorLink a;
     AuthorIcon := AuthorIcon a; Footer := Footer a;
     FooterIcon := FooterIcon a; TS := TS a; Fields := Fields a |}.

(** ** The event classifier *)

(** Both constructors return [(m *Message, err error)] with exactly one
    of the two set: [inl m] is [(m, nil)] and [inr e] is [(nil, e)]. *)

Definition makeStartMessage (msg : events.Message) : Message + error :=
  match events.Attributes (events.Actor msg) !! "name" with
  | None => inr "no name"
  | Some name =>
      inl {| Message_Text := "";
             Attachments :=
               [ Attachment_lit
                   (fmt.Sprintf "Container started. name => %s image => %s"
                                [name; events.From msg])
                   StartColor
                   (events.Time msg) ] |}
  end.

Definition makeDieMessage (msg : events.Message) (logReder : io.Reader)
  : Message + error :=
  match events.Attributes (events.Actor msg) !! "exitCode" with
  | None => inr "no exitCode"
  | Some exitCode =>
      match events.Attributes (events.Actor msg) !! "name" with
      | None => inr "no name"
      | Some name =>
          let m :=
            {| Message_Text := "";
               Attachments :=
                 [ Attachment_lit
                     (fmt.Sprintf
                        "Container died. name => %s image => %s status code => %s"
                        [name; events.From msg; exitCode])
                     DieColor
                     (events.Time msg) ] |} in
          match ioutil.ReadAll logReder with
          | (_, Some err) => inr err
          | (b, None) =>
              inl {| Message_Text := Message_Text m;
                     Attachments :=
                       alter (fun a => set_Text a ("```" +:+ b +:+ "```")) 0%nat
                             (Attachments m) |}
          end
      end
  end.

(** ** Configuration *)

Record Config := {
  SlackURL : string;
  DiscordURL : string
}.

(** ** The process and its surroundings *)

Module types.
(** The fields of [types.ContainerLogsOptions] that the program sets. *)
Record ContainerLogsOptions := {
  Since : string;
  ShowStdout : bool;
  ShowStderr : bool
}.
End types.

Module http.
(** Of an [http.Response] the status code is all that matters here. *)
Record Response := { StatusCode : Z }.
End http.

(** What the process does to the outside, in the order it does it. *)
Inductive effect :=
| Println (line : string)                       (* log.Println *)
| Fatal (line : string)                         (* log.Fatal *)
| NewClient (version : string)                  (* client.NewClientWithOpts *)
| Subscribe                                     (* cli.Events *)
| Cancel                                        (* the deferred cancel() *)
| Logs (id : string) (o : types.ContainerLogsOptions) (* cli.ContainerLogs *)
| Post (url contentType body : string).         (* http.Post *)

(** How far a piece of code got: it returned a value, it ended the
    process ([os.Exit], reached through [log.Fatal]), or it is waiting
    on channels on which nothing more arrives. *)
Inductive Res (A : Type) :=
| Val (a : A)
| Exited
| Blocked.
Arguments Val {A} a.
Arguments Exited {A}.
Arguments Blocked {A}.

(** The collaborators outside the repository, over a state [W] of the
    outside world (the Docker daemon, the network). *)
Record Host (W : Type) := {
  environ : gmap string string;
  NewClientWithOpts : string → W → option error * W;
  ContainerLogs :
    string → types.ContainerLogsOptions → W → (io.Reader + error) * W;
  json_Marshal : Message → string + error;
  http_Post : string → string → string → W → (http.Response + error) * W
}.
Arguments environ {W} h.
Arguments NewClientWithOpts {W} h.
Arguments ContainerLogs {W} h.
Arguments json_Marshal {W} h.
Arguments http_Post {W} h.

(** The state of the process: the outside world, what the process has
    done so far, and the goroutines created by [go m.Send(config)] that
    have not run yet. *)
Record Proc (W : Type) := {
  world : W;
  trace : list effect;
  goroutines : list (Message * Config)
}.
Arguments world {W} p.
Arguments trace {W} p.
Arguments goroutines {W} p.

Definition M (W A : Type) : Type := Proc W → Res A * Proc W.

(** [M W] is a monad; stdpp's notations [x ← m; k] and [m;; k] are used
    for sequencing. *)
#[export] Instance M_ret {W} : MRet (M W) := λ A a p, (Val a, p).

#[export] Instance M_bind {W} : MBind (M W) := λ A B k m p,
  match m p with
  | (Val a, p') => k a p'
  | (Exited, p') => (Exited, p')
  | (Blocked, p') => (Blocked, p')
  end.

Section Primitives.
Context {W : Type}.

(** Appends one effect to the trace. *)
Definition emit (e : effect) : M W unit :=
  λ p, (Val tt, {| world := world p; trace := trace p ++ [e];
                   goroutines := goroutines p |}).

(** Runs a collaborator on the outside world. *)
Definition call {A} (f : W → A * W) : M W A :=
  λ p, let '(a, w) := f (world p) in
       (Val a, {| world := w; trace := trace p; goroutines := goroutines p |}).

(** [log.Fatal]: prints the line and exits. *)
Definition log_Fatal {A} (line : string) : M W A :=
  λ p, (Exited, {| world := world p; trace := trace p ++ [Fatal line];
                   goroutines := goroutines p |}).

(** A receive on channels that stay silent. *)
Definition block {A} : M W A := λ p, (Blocked, p).

(** The [go] statement on [m.Send(config)]: the call is queued for the
    scheduler, the caller goes on at once. *)
Definition go_Send (m : Message) (config : Config) : M W unit :=
  λ p, (Val tt, {| world := world p; trace := trace p;
                   goroutines := goroutines p ++ [(m, config)] |}).
End Primitives.

Section Program.
Context {W : Type} (host : Host W).

Definition os_Getenv (key : string) : string :=
  default "" (environ host !! key).

(** [NewConfig] *)
Definition NewConfig : Config + error :=
  let slackURL := os_Getenv SlackURLEnv in
  let discordURL := os_Getenv DiscordURLEnv in
  if bool_decide (slackURL = "") && bool_decide (discordURL = "") then
    inr (fmt.Sprintf "%s and/or %s must be set" [SlackURLEnv; DiscordURLEnv])
  else
    inl {| SlackURL := slackURL; DiscordURL := discordURL |}.

(** The method [post] of [Message]: the response is closed and otherwise ignored. *)
Definition post (u : string) (body : string) : M W (option error) :=
  emit (Post u "application/json" body);;
  r ← call (http_Post host u "application/json" body);
  match r with
  | inr err => mret (Some err)
  | inl resp => mret None
  end.

(** The method [Send] of [Message] *)
Definition Send (m : Message) (config : Config) : M W unit :=
  match json_Marshal host m with
  | inr err => emit (Println err)
  | inl b =>
      err ← (if bool_decide (SlackURL config ≠ "")
             then post (SlackURL config) b else mret None);
      match err with
      | Some err => emit (Println err)
      | None =>
          if bool_decide (DiscordURL config ≠ "") then
            err ← post (DiscordURL config) b;
            match err with
            | Some err => emit (Println err)
            | None => mret tt
            end
          else mret tt
      end
  end.

(** *** The watch loop *)

(** What wakes the process while the main goroutine waits in the
    [select] of [start]: a value arrives on one of the two channels of
    the subscription, or the scheduler runs one of the goroutines
    that wait to run. *)
Inductive wakeup :=
| RecvMsg (msg : events.Message)      (* case msg := <-msgChan *)
| RecvErr (err : option error)        (* case err = <-errChan *)
| Run (i : nat).                      (* the scheduler picks goroutine i *)

(** The scheduler runs the [i]-th waiting goroutine, the call
    [m.Send(config)] of a [go] statement, to its end. *)
Definition run_goroutine (i : nat) : M W unit :=
  λ p, match goroutines p !! i with
       | None => (Val tt, p)
       | Some (m, config) =>
           Send m config {| world := world p; trace := trace p;
                            goroutines := delete i (goroutines p) |}
       end.

Definition logsOptions : types.ContainerLogsOptions :=
  {| types.Since := "30s"; types.ShowStdout := true;
     types.ShowStderr := true |}.

(** The body of [case msg := <-msgChan] in [start]: the [switch] on
    [msg.Status].  Every [continue] ends the body, as does the end of
    the [switch]. *)
Definition onMessage (config : Config) (msg : events.Message) : M W unit :=
  if bool_decide (events.Status msg = Start) then
    match makeStartMessage msg with
    | inr err => emit (Println err)
    | inl m => go_Send m config
    end
  else if bool_decide (events.Status msg = Die) then
    emit (Logs (events.ID msg) logsOptions);;
    r ← call (ContainerLogs host (events.ID msg) logsOptions);
    match r with
    | inr err => emit (Println err)
    | inl reader =>
        match makeDieMessage msg reader with
        | inr err => emit (Println err)
        | inl m => go_Send m config
        end
    end
  else mret tt.

(** The loop labelled [L] of [start], over what wakes the process
    during this subscription.  It ends with the value received from
    the error channel; when nothing more arrives it stays blocked. *)
Fixpoint select_loop (config : Config) (ws : list wakeup)
  : M W (option error) :=
  match ws with
  | [] => block
  | RecvMsg msg :: ws' => onMessage config msg;; select_loop config ws'
  | RecvErr err :: _ => mret err
  | Run i :: ws' => run_goroutine i;; select_loop config ws'
  end.

(** [start]: the subscription is opened, the loop runs, and the
    deferred [cancel] runs when the function returns. *)
Definition start (config : Config) (ws : list wakeup)
  : M W (option error) :=
  emit Subscribe;;
  err ← select_loop config ws;
  emit Cancel;;
  mret err.

(** The [for] loop of [main] over the subscriptions on which something
    arrives; every later subscription stays silent.  The loop has no
    exit, hence the empty result type. *)
Fixpoint forever (config : Config) (subs : list (list wakeup))
  : M W Empty_set :=
  match subs with
  | [] => start config [];; block
  | ws :: subs' =>
      err ← start config ws;
      match err with
      | Some err => emit (Println err)
      | None => mret tt
      end;;
      forever config subs'
  end.

(** [main].  The deferred [cli.Close] never runs: [log.Fatal] exits
    without running deferred calls and the loop has no exit. *)
Definition main (subs : list (list wakeup)) : M W Empty_set :=
  let apiVersion := os_Getenv "API_VERSION" in
  if bool_decide (apiVersion = "") then
    log_Fatal "API_VERSION must be set as your docker api version"
  else
    match NewConfig with
    | inr err => log_Fatal err
    | inl config =>
        emit (NewClient apiVersion);;
        err ← call (NewClientWithOpts host apiVersion);
        match err with
        | Some err => log_Fatal err
        | None => forever config subs
        end
    end.

End Program.

(** * Observations *)

(** Adding effects to the trace of a process state. *)
Definition logged {W} (p : Proc W) (es : list effect) : Proc W :=
  {| world := world p; trace := trace p ++ es; goroutines := goroutines p |}.

(** Replacing the outside world of a process state. *)
Definition at_world {W} (p : Proc W) (w : W) : Proc W :=
  {| world := w; trace := trace p; goroutines := goroutines p |}.

(** The URLs of the delivery attempts in a trace, and its log lines. *)
Definition attempts (t : list effect) : list string :=
  omap (λ e, match e with Post u _ _ => Some u | _ => None end) t.

Definition printed (t : list effect) : list string :=
  omap (λ e, match e with Println l => Some l | _ => None end) t.

(** A computation that only adds to the trace, however it ends. *)
Definition growing {W A} (m : M W A) : Prop :=
  ∀ p, trace p `prefix_of` trace (m p).2.

(** The state in which the loop of a subscription is left by the
    wake-ups [pre], none of which is a value on the error channel. *)
Definition streamed {W} (host : Host W) (config : Config)
    (pre : list wakeup) (p : Proc W) : Proc W :=
  (select_loop host config pre (logged p [Subscribe])).2.

(** What the loop of [main] prints for the result of [start]. *)
Definition report (err : option error) : list effect :=
  match err with
  | Some e => [Println e]
  | None => []
  end.

(** [os.Getenv] gives the empty string for a variable that is unset
    and for one that is set to the empty string. *)
Definition unset_or_empty {W} (host : Host W) (key : string) : Prop :=
  environ host !! key = None ∨ environ host !! key = Some "".

(** ** Simulated surroundings *)

Module sim.

(** A stand-in for the JSON text of a message: its titles. *)
Definition wire (m : Message) : string :=
  String.concat "|" (Title <$> Attachments m).

(** A world that counts the calls it has served.  The endpoints in
    [down] refuse connections, every other endpoint answers with
    [status]; [logs] tells what the daemon returns for the logs of a
    container. *)
Definition host (env : gmap string string) (down : list string)
    (status : Z) (logs : string → io.Reader + error) : Host nat :=
  {| environ := env;
     NewClientWithOpts := λ _ n, (None, S n);
     ContainerLogs := λ id _ n, (logs id, S n);
     json_Marshal := λ m, inl (wire m);
     http_Post := λ u _ _ n,
       (if bool_decide (u ∈ down)
        then inr ("Post " +:+ u +:+ ": connection refused")
        else inl {| http.StatusCode := status |}, S n) |}.

Definition slack : string := "https://hooks.slack.test/services/T1".
Definition discord : string := "https://discord.test/api/webhooks/7/slack".

Definition both : Config := {| SlackURL := slack; DiscordURL := discord |}.

Definition env : gmap string string :=
  {[ "API_VERSION" := "1.37"; "SLACK_URL" := slack; "DISCORD_URL" := discord ]}.

Definition no_logs : string → io.Reader + error := λ _, inl io.EOF.

(** The process before [main] has done anything. *)
Definition boot : Proc nat := {| world := 0%nat; trace := []; goroutines := [] |}.

Definition hello : Message :=
  {| Message_Text := "";
     Attachments := [Attachment_lit "Container started." StartColor 1000] |}.

End sim.

(** ** Sample events and surroundings *)

(** The events of the two end-to-end scenarios of the specification. *)
Definition web1_started : events.Message :=
  {| events.Status := "start"; events.ID := "4f1c"; events.From := "nginx:latest";
     events.Actor := {| events.Actor_ID := "4f1c";
                        events.Attributes := {[ "name" := "web1" ]} |};
     events.Time := 1000 |}.

Definition web1_died : events.Message :=
  {| events.Status := "die"; events.ID := "4f1c"; events.From := "nginx:latest";
     events.Actor := {| events.Actor_ID := "4f1c";
                        events.Attributes :=
                          {[ "name" := "web1"; "exitCode" := "137" ]} |};
     events.Time := 2000 |}.

(** A start event without a [name] attribute, and an event that is
    neither [start] nor [die]. *)
Definition anon_started : events.Message :=
  {| events.Status := "start"; events.ID := "9a20"; events.From := "redis:7";
     events.Actor := {| events.Actor_ID := "9a20";
                        events.Attributes := {[ "image" := "redis:7" ]} |};
     events.Time := 1500 |}.

Definition web1_destroyed : events.Message :=
  {| events.Status := "destroy"; events.ID := "4f1c"; events.From := "nginx:latest";
     events.Actor := {| events.Actor_ID := "4f1c";
                        events.Attributes := {[ "name" := "web1" ]} |};
     events.Time := 2500 |}.

(** The Slack endpoint refuses connections, Discord answers 204. *)
Definition slack_down : Host nat := sim.host sim.env [sim.slack] 204 sim.no_logs.

(** Both endpoints answer with an HTTP error status. *)
Definition both_500 : Host nat := sim.host sim.env [] 500 sim.no_logs.

(** The daemon has no logs for the container; the daemon gives a
    reader that breaks after some bytes. *)
Definition logs_refused : Host nat :=
  sim.host sim.env [] 204 (λ _, inr "Error: No such container: 4f1c").

Definition logs_broken : Host nat :=
  sim.host sim.env [] 204
           (λ _, inl (io.Data "listening on :80" (io.Failed "unexpected EOF"))).

(** An environment without [API_VERSION]. *)
Definition no_version : Host nat :=
  sim.host {[ "SLACK_URL" := sim.slack ]} [] 204 sim.no_logs.

(** ** Further observations *)

(** The reader that gives the chunks [cs], one per read, and then goes
    on as [last]. *)
Definition chunked (cs : list string) (last : io.Reader) : io.Reader :=
  foldr io.Data last cs.

(** The bytes of a list of chunks. *)
Definition bytes_of (cs : list string) : string :=
  foldr String.append "" cs.

(** The numbers of subscriptions opened and of subscription contexts
    cancelled in a trace. *)
Definition opened (t : list effect) : nat :=
  length (omap (λ e, match e with Subscribe => Some tt | _ => None end) t).

Definition cancelled (t : list effect) : nat :=
  length (omap (λ e, match e with Cancel => Some tt | _ => None end) t).

(** What a queued delivery must look like: one attachment, and the
    configuration of the loop. *)
Definition queued_for (config : Config) (g : Message * Config) : Prop :=
  length (Attachments g.1) = 1%nat ∧ g.2 = config.

(** The computation [m] keeps the property [Q] of the queue of
    goroutines, and every effect that it adds to the trace satisfies
    [P]. *)
Definition keeps {W A} (Q : list (Message * Config) → Prop)
    (P : effect → Prop) (m : M W A) : Prop :=
  ∀ p, Q (goroutines p) →
       Q (goroutines (m p).2) ∧
       ∃ es, trace (m p).2 = trace p ++ es ∧ Forall P es.

(** What [m.Send(config)] may do: print, and request with the JSON
    content type and the encoding of [m] as body from one of the two
    endpoints, which is not empty. *)
Definition send_effect {W} (host : Host W) (m : Message) (config : Config)
    (e : effect) : Prop :=
  match e with
  | Println _ => True
  | Post u ct body =>
      ct = "application/json" ∧ u ≠ "" ∧
      (u = SlackURL config ∨ u = DiscordURL config) ∧
      json_Marshal host m = inl body
  | _ => False
  end.

(** What may happen while a subscription is streamed: printing, log
    requests with the options of the program, and requests to the
    endpoints of [config]. *)
Definition body_effect (config : Config) (e : effect) : Prop :=
  match e with
  | Println _ => True
  | Logs _ o => o = logsOptions
  | Post u ct _ =>
      ct = "application/json" ∧ u ≠ "" ∧
      (u = SlackURL config ∨ u = DiscordURL config)
  | _ => False
  end.

(** What may happen in the loop of [main]: the above, and the opening
    and cancelling of subscriptions. *)
Definition loop_effect (config : Config) (e : effect) : Prop :=
  match e with
  | Subscribe | Cancel => True
  | _ => body_effect config e
  end.

(** What a delivery goroutine does: it prints and posts. *)
Definition sends_only (e : effect) : Prop :=
  match e with
  | Println _ | Post _ _ _ => True
  | _ => False
  end.

(** What the message case of [start] does for the event [msg]: it
    prints, and for a die event it asks for the logs of the container
    of the event. *)
Definition intake_effect (msg : events.Message) (e : effect) : Prop :=
  match e with
  | Println _ => True
  | Logs id o =>
      events.Status msg = Die ∧ id = events.ID msg ∧ o = logsOptions
  | _ => False
  end.

(** The configuration has one endpoint only. *)
Definition slack_only : Config := {| SlackURL := sim.slack; DiscordURL := "" |}.
Definition discord_only : Config := {| SlackURL := ""; DiscordURL := sim.discord |}.

(** A die event that lacks its exit code. *)
Definition web1_died_no_code : events.Message :=
  {| events.Status := "die"; events.ID := "4f1c"; events.From := "nginx:latest";
     events.Actor := {| events.Actor_ID := "4f1c";
                        events.Attributes := {[ "name" := "web1" ]} |};
     events.Time := 2000 |}.

(** Only the two endpoints answer, with an HTTP error status; the
    empty URL and every other address are refused. *)
Definition only_sinks_500 : Host nat :=
  {| environ := sim.env;
     NewClientWithOpts := λ _ n, (None, S n);
     ContainerLogs := λ _ _ n, (inl io.EOF, S n);
     json_Marshal := λ m, inl (sim.wire m);
     http_Post := λ u _ _ n,
       (if bool_decide (u = sim.slack ∨ u = sim.discord)
        then inl {| http.StatusCode := 500 |}
        else inr ("Post " +:+ u +:+ ": connection refused"), S n) |}.

(** The daemon returns the log in two chunks. *)
Definition logs_chunked : Host nat :=
  sim.host sim.env [] 204 (λ _, inl (chunked ["oom-"; "killed"] io.EOF)).

(** * Properties *)

(** ** Strings and formats *)

Lemma append_String (c : ascii) (s t : string) :
  String c s +:+ t = String c (s +:+ t).
Proof. reflexivity. Qed.

Lemma append_empty_r (s : string) : s +:+ "" = s.
Proof.
  induction s as [|c s IH]; [done |]. by rewrite append_String, IH.
Qed.

(** The three format strings of the program lie in the modelled
    fragment of [fmt]. *)
Lemma formats_plain :
  fmt.plain "Container started. name => %s image => %s" = true ∧
  fmt.plain "Container died. name => %s image => %s status code => %s" = true ∧
  fmt.plain "%s and/or %s must be set" = true.
Proof. by vm_compute. Qed.

Lemma Sprintf_start (name from : string) :
  fmt.Sprintf "Container started. name => %s image => %s" [name; from]
  = "Container started. name => " +:+ name +:+ " image => " +:+ from.
Proof. cbn. rewrite append_empty_r. reflexivity. Qed.

Lemma Sprintf_die (name from exitCode : string) :
  fmt.Sprintf "Container died. name => %s image => %s status code => %s"
              [name; from; exitCode]
  = "Container died. name => " +:+ name +:+ " image => " +:+ from
    +:+ " status code => " +:+ exitCode.
Proof. cbn. rewrite append_empty_r. reflexivity. Qed.

(** ** The event classifier *)

(** C4: a start event that carries a [name] gives one attachment with
    the start colour, the title built from the name and the image, the
    time of the event, and no body text. *)
Theorem makeStartMessage_named (msg : events.Message) (name : string) :
  events.Attributes (events.Actor msg) !! "name" = Some name →
  makeStartMessage msg =
    inl {| Message_Text := "";
           Attachments :=
             [ {| Fallback := ""; Pretext := ""; Color := "#9ccc65";
                  Title := "Container started. name => " +:+ name +:+
                           " image => " +:+ events.From msg;
                  TitleLink := ""; Text := ""; AuthorName := "";
                  AuthorLink := ""; AuthorIcon := ""; Footer := "";
                  FooterIcon := ""; TS := events.Time msg; Fields := [] |} ] |}.
Proof.
  intros Hname. unfold makeStartMessage. rewrite Hname, Sprintf_start.
  reflexivity.
Qed.

Lemma makeStartMessage_named_witness :
  makeStartMessage web1_started =
    inl {| Message_Text := "";
           Attachments :=
             [ {| Fallback := ""; Pretext := ""; Color := "#9ccc65";
                  Title := "Container started. name => web1 image => nginx:latest";
                  TitleLink := ""; Text := ""; AuthorName := "";
                  AuthorLink := ""; AuthorIcon := ""; Footer := "";
                  FooterIcon := ""; TS := 1000; Fields := [] |} ] |}.
Proof. exact (makeStartMessage_named web1_started "web1" eq_refl). Defined.

(** C3: a die event that carries [name] and [exitCode], with log bytes
    [L] read without error, gives one attachment with the die colour,
    the title built from name, image and exit code, the time of the
    event, and [L] between two fences as its text. *)
Theorem makeDieMessage_logs (msg : events.Message) (name exitCode : string)
    (logReder : io.Reader) (L : string) :
  events.Attributes (events.Actor msg) !! "name" = Some name →
  events.Attributes (events.Actor msg) !! "exitCode" = Some exitCode →
  ioutil.ReadAll logReder = (L, None) →
  makeDieMessage msg logReder =
    inl {| Message_Text := "";
           Attachments :=
             [ {| Fallback := ""; Pretext := ""; Color := "#c62828";
                  Title := "Container died. name => " +:+ name +:+
                           " image => " +:+ events.From msg +:+
                           " status code => " +:+ exitCode;
                  TitleLink := "";
                  Text := "```" +:+ L +:+ "```";
                  AuthorName := "";
                  AuthorLink := ""; AuthorIcon := ""; Footer := "";
                  FooterIcon := ""; TS := events.Time msg; Fields := [] |} ] |}.
Proof.
  intros Hname Hcode Hread. unfold makeDieMessage.
  rewrite Hcode, Hname, Hread, Sprintf_die. reflexivity.
Qed.

Lemma makeDieMessage_logs_witness :
  makeDieMessage web1_died (io.Data "oom-" (io.Data "killed" io.EOF)) =
    inl {| Message_Text := "";
           Attachments :=
             [ {| Fallback := ""; Pretext := ""; Color := "#c62828";
                  Title := "Container died. name => web1 image => nginx:latest status code => 137";
                  TitleLink := "";
                  Text := "```oom-killed```";
                  AuthorName := "";
                  AuthorLink := ""; AuthorIcon := ""; Footer := "";
                  FooterIcon := ""; TS := 2000; Fields := [] |} ] |}.
Proof.
  exact (makeDieMessage_logs web1_died "web1" "137"
           (io.Data "oom-" (io.Data "killed" io.EOF)) "oom-killed"
           eq_refl eq_refl eq_refl).
Defined.

(** ** Running the monad *)

Lemma emit_run {W} (e : effect) (p : Proc W) : emit e p = (Val tt, logged p [e]).
Proof. reflexivity. Qed.

Lemma bind_Val {W A B} (m : M W A) (k : A → M W B) (p p' : Proc W) (a : A) :
  m p = (Val a, p') → (m ≫= k) p = k a p'.
Proof. intros Hm. unfold mbind, M_bind. by rewrite Hm. Qed.

(** Unfolds the primitives of the monad in the goal and reassociates
    the traces. *)
Ltac io_step :=
  unfold emit, call, log_Fatal, block, go_Send, mret, M_ret, logged, at_world;
  cbn; rewrite <- ?app_assoc; cbn.

Section Dispatcher.
Context {W : Type} (host : Host W).

(** [post] makes the request and looks at nothing of the response. *)
Lemma post_run (u body : string) (p : Proc W) :
  post host u body p =
    (Val match (http_Post host u "application/json" body (world p)).1 with
         | inl _ => None
         | inr err => Some err
         end,
     logged (at_world p (http_Post host u "application/json" body (world p)).2)
            [Post u "application/json" body]).
Proof.
  unfold post, mbind, M_bind, emit, call, mret, M_ret, logged, at_world. cbn.
  destruct (http_Post host u "application/json" body (world p)) as [[resp|err] w];
    reflexivity.
Qed.

(** [Send] never blocks and never ends the process. *)
Lemma Send_returns (m : Message) (config : Config) (p : Proc W) :
  (Send host m config p).1 = Val tt.
Proof.
  unfold Send. destruct (json_Marshal host m) as [b|err]; [|done].
  unfold mbind, M_bind.
  case_bool_decide.
  - rewrite post_run. destruct (http_Post _ _ _ _ _) as [[?|?] ?]; cbn; [|done].
    case_bool_decide; [|done].
    rewrite post_run. by destruct (http_Post _ _ _ _ _) as [[?|?] ?].
  - cbn. case_bool_decide; [|done].
    rewrite post_run. by destruct (http_Post _ _ _ _ _) as [[?|?] ?].
Qed.

(** [Send] with both endpoints configured: the Slack attempt comes
    first, and its outcome decides whether Discord is attempted. *)
Lemma Send_run_both (m : Message) (config : Config) (b : string) (p : Proc W) :
  json_Marshal host m = inl b →
  SlackURL config ≠ "" →
  DiscordURL config ≠ "" →
  let ct := "application/json" in
  Send host m config p =
    match http_Post host (SlackURL config) ct b (world p) with
    | (inr e, w) =>
        (Val tt, logged (at_world p w) [Post (SlackURL config) ct b; Println e])
    | (inl _, w) =>
        match http_Post host (DiscordURL config) ct b w with
        | (inr e, w') =>
            (Val tt, logged (at_world p w')
                       [Post (SlackURL config) ct b;
                        Post (DiscordURL config) ct b; Println e])
        | (inl _, w') =>
            (Val tt, logged (at_world p w')
                       [Post (SlackURL config) ct b;
                        Post (DiscordURL config) ct b])
        end
    end.
Proof.
  intros Hb Hs Hd ct. unfold Send. rewrite Hb.
  rewrite !bool_decide_eq_true_2 by done.
  unfold mbind, M_bind. rewrite post_run.
  destruct (http_Post host (SlackURL config) _ b (world p)) as [[r|e] w]; cbn.
  - rewrite post_run. cbn.
    destruct (http_Post host (DiscordURL config) _ b w) as [[r'|e'] w']; by io_step.
  - by io_step.
Qed.

End Dispatcher.

(** ** The dispatcher *)

Section DispatcherClaims.
Context {W : Type} (host : Host W).

(** C1, as the code has it: with both endpoints configured, [Send]
    attempts Slack first.  When that attempt succeeds Discord is
    attempted too, one attempt per endpoint, and a failure of the
    Discord attempt is only logged.  When the Slack attempt fails the
    error is logged and [Send] returns: Discord is not attempted. *)
Theorem Send_attempts_in_order (m : Message) (config : Config) (b : string)
    (p : Proc W) :
  json_Marshal host m = inl b →
  SlackURL config ≠ "" →
  DiscordURL config ≠ "" →
  let ct := "application/json" in
  let slack := http_Post host (SlackURL config) ct b (world p) in
  let discord := http_Post host (DiscordURL config) ct b slack.2 in
  let p' := (Send host m config p).2 in
  (Send host m config p).1 = Val tt ∧
  goroutines p' = goroutines p ∧
  match slack.1 with
  | inl _ =>
      trace p' = trace p ++ [Post (SlackURL config) ct b;
                             Post (DiscordURL config) ct b]
                         ++ match discord.1 with
                            | inl _ => []
                            | inr e => [Println e]
                            end
  | inr e =>
      trace p' = trace p ++ [Post (SlackURL config) ct b; Println e]
  end.
Proof.
  intros Hb Hs Hd ct slack discord p'. subst p' discord slack.
  rewrite (Send_run_both host m config b p Hb Hs Hd). fold ct.
  destruct (http_Post host (SlackURL config) ct b (world p)) as [[r|e] w]; cbn.
  - destruct (http_Post host (DiscordURL config) ct b w) as [[r'|e'] w']; cbn;
      by rewrite <- ?app_assoc.
  - done.
Qed.

(** C10: [post] reports an error exactly when the transport does;
    a response counts as success whatever its status code.  So when
    the message is encoded and each endpoint that is configured
    answers the request made to it, with whatever status, [Send]
    attempts every configured endpoint and logs nothing. *)
Theorem post_ignores_status (m : Message) (config : Config) (b : string)
    (p : Proc W) :
  let ct := "application/json" in
  let w1 := if bool_decide (SlackURL config ≠ "")
            then (http_Post host (SlackURL config) ct b (world p)).2
            else world p in
  (∀ u body q resp,
     (http_Post host u ct body (world q)).1 = inl resp →
     (post host u body q).1 = Val None) ∧
  (∀ u body q e,
     (post host u body q).1 = Val (Some e) ↔
     (http_Post host u ct body (world q)).1 = inr e) ∧
  (json_Marshal host m = inl b →
   (SlackURL config ≠ "" →
    ∃ resp, (http_Post host (SlackURL config) ct b (world p)).1 = inl resp) →
   (DiscordURL config ≠ "" →
    ∃ resp, (http_Post host (DiscordURL config) ct b w1).1 = inl resp) →
   printed (trace (Send host m config p).2) = printed (trace p) ∧
   attempts (trace (Send host m config p).2)
     = attempts (trace p)
       ++ filter (λ u, u ≠ "") [SlackURL config; DiscordURL config]).
Proof.
  intros ct w1. split; [|split].
  - intros u body q resp Hresp. rewrite post_run. cbn. fold ct. by rewrite Hresp.
  - intros u body q e. rewrite post_run. cbn. fold ct.
    destruct (http_Post host u ct body (world q)) as [[r|e'] w];
      cbn; split; congruence.
  - intros Hb Hslack Hdiscord. subst w1. unfold Send. rewrite Hb.
    unfold mbind, M_bind, attempts, printed.
    destruct (decide (SlackURL config = "")) as [Hs|Hs].
    + rewrite (bool_decide_eq_false_2 (SlackURL config ≠ "")) in *
        by (by intros ?). cbn.
      destruct (decide (DiscordURL config = "")) as [Hd|Hd].
      * rewrite (bool_decide_eq_false_2 (DiscordURL config ≠ "")) by (by intros ?).
        cbn. repeat case_decide; try done. by rewrite app_nil_r.
      * rewrite (bool_decide_eq_true_2 (DiscordURL config ≠ "")) by done.
        rewrite post_run. fold ct. destruct (Hdiscord Hd) as [resp Hresp].
        rewrite Hresp. cbn. rewrite !omap_app. cbn.
        repeat case_decide; try done. by rewrite app_nil_r.
    + rewrite (bool_decide_eq_true_2 (SlackURL config ≠ "")) in * by done.
      rewrite post_run. fold ct. destruct (Hslack Hs) as [resp Hresp].
      destruct (http_Post host (SlackURL config) ct b (world p)) as [r1 w];
        cbn in Hresp, Hdiscord |- *. subst r1.
      destruct (decide (DiscordURL config = "")) as [Hd|Hd].
      * rewrite (bool_decide_eq_false_2 (DiscordURL config ≠ "")) by (by intros ?).
        cbn. rewrite !omap_app. cbn.
        repeat case_decide; try done. by rewrite app_nil_r.
      * rewrite (bool_decide_eq_true_2 (DiscordURL config ≠ "")) by done.
        rewrite post_run. cbn. fold ct. destruct (Hdiscord Hd) as [resp' Hresp'].
        rewrite Hresp'. cbn. rewrite !omap_app. cbn. rewrite <- !app_assoc. cbn.
        repeat case_decide; try done. by rewrite app_nil_r.
Qed.

End DispatcherClaims.

(** C1 fails as stated: both endpoints are configured and Discord is
    reachable, yet after the failed Slack attempt [Send] makes no
    attempt on Discord. *)
Lemma Send_slack_down_skips_discord :
  SlackURL sim.both ≠ "" ∧ DiscordURL sim.both ≠ "" ∧
  (http_Post slack_down sim.discord "application/json"
     (sim.wire sim.hello) 1%nat).1 = inl {| http.StatusCode := 204 |} ∧
  attempts (trace (Send slack_down sim.hello sim.both sim.boot).2) = [sim.slack] ∧
  sim.discord ∉ attempts (trace (Send slack_down sim.hello sim.both sim.boot).2).
Proof.
  split; [discriminate|]. split; [discriminate|]. split; [done|].
  assert (Hrun : attempts (trace (Send slack_down sim.hello sim.both sim.boot).2)
                 = [sim.slack]) by (by vm_compute).
  split; [exact Hrun|]. rewrite Hrun. intros Hin.
  apply list_elem_of_singleton in Hin. discriminate Hin.
Qed.

Lemma Send_attempts_in_order_witness :
  trace (Send slack_down sim.hello sim.both sim.boot).2
  = [Post sim.slack "application/json" (sim.wire sim.hello);
     Println ("Post " +:+ sim.slack +:+ ": connection refused")].
Proof.
  pose proof (Send_attempts_in_order slack_down sim.hello sim.both
                (sim.wire sim.hello) sim.boot) as H.
  specialize (H eq_refl).
  assert (Hs : SlackURL sim.both ≠ "") by discriminate.
  assert (Hd : DiscordURL sim.both ≠ "") by discriminate.
  specialize (H Hs Hd). cbv zeta in H.
  destruct H as (_ & _ & H). exact H.
Defined.

Lemma post_ignores_status_witness :
  (http_Post only_sinks_500 "" "application/json" (sim.wire sim.hello) 0%nat).1
  = inr "Post : connection refused" ∧
  printed (trace (Send only_sinks_500 sim.hello sim.both sim.boot).2) = [] ∧
  attempts (trace (Send only_sinks_500 sim.hello sim.both sim.boot).2)
    = [sim.slack; sim.discord].
Proof.
  split; [reflexivity|].
  destruct (post_ignores_status only_sinks_500 sim.hello sim.both
              (sim.wire sim.hello) sim.boot) as (_ & _ & Hsend).
  destruct (Hsend eq_refl) as (Hp & Ha).
  - intros _. exists {| http.StatusCode := 500 |}. reflexivity.
  - intros _. exists {| http.StatusCode := 500 |}. reflexivity.
  - split; [exact Hp | exact Ha].
Defined.

(** ** The watch loop *)

Section WatchLoop.
Context {W : Type} (host : Host W).

Lemma growing_bind {A B} (m : M W A) (k : A → M W B) :
  growing m → (∀ a, growing (k a)) → growing (m ≫= k).
Proof.
  intros Hm Hk p. unfold mbind, M_bind. specialize (Hm p).
  destruct (m p) as [[a| |] p']; cbn in *; [|done..].
  etrans; [exact Hm | apply Hk].
Qed.

Lemma growing_emit (e : effect) : growing (emit (W:=W) e).
Proof. intros p. cbn. by apply prefix_app_r. Qed.

Lemma growing_ret {A} (a : A) : growing (mret (M:=M W) a).
Proof. by intros p. Qed.

Lemma growing_call {A} (f : W → A * W) : growing (call f).
Proof. intros p. unfold call. by destruct (f (world p)). Qed.

Lemma Send_growing (m : Message) (config : Config) : growing (Send host m config).
Proof.
  unfold Send. destruct (json_Marshal host m) as [b|err]; [|apply growing_emit].
  assert (Hpost : ∀ u, growing (post host u b)).
  { intros u p. rewrite post_run. cbn. by apply prefix_app_r. }
  apply growing_bind.
  - case_bool_decide; [apply Hpost | apply growing_ret].
  - intros [e|]; [apply growing_emit|].
    case_bool_decide; [|apply growing_ret].
    apply growing_bind; [apply Hpost|].
    intros [e|]; [apply growing_emit | apply growing_ret].
Qed.

Lemma run_goroutine_returns (i : nat) (p : Proc W) :
  (run_goroutine host i p).1 = Val tt.
Proof.
  unfold run_goroutine. destruct (goroutines p !! i) as [[m config]|]; [|done].
  apply Send_returns.
Qed.

Lemma run_goroutine_growing (i : nat) : growing (run_goroutine host i).
Proof.
  intros p. unfold run_goroutine.
  destruct (goroutines p !! i) as [[m config]|]; [|done].
  apply (Send_growing m config
           {| world := world p; trace := trace p;
              goroutines := delete i (goroutines p) |}).
Qed.

(** Whatever the event and whatever the daemon answers, the body of
    the message case returns: no error leaves it. *)
Lemma onMessage_returns (config : Config) (msg : events.Message) (p : Proc W) :
  (onMessage host config msg p).1 = Val tt.
Proof.
  unfold onMessage. case_bool_decide.
  { by destruct (makeStartMessage msg). }
  case_bool_decide; [|done].
  unfold mbind, M_bind, emit, call. cbn.
  destruct (ContainerLogs host _ _ _) as [[reader|err] w]; [|done].
  by destruct (makeDieMessage msg reader).
Qed.

Lemma onMessage_growing (config : Config) (msg : events.Message) :
  growing (onMessage host config msg).
Proof.
  unfold onMessage. case_bool_decide.
  { destruct (makeStartMessage msg); [by intros p | apply growing_emit]. }
  case_bool_decide; [|apply growing_ret].
  apply growing_bind; [apply growing_emit|]. intros _.
  apply growing_bind; [apply growing_call|]. intros [reader|err].
  - destruct (makeDieMessage msg reader); [by intros p | apply growing_emit].
  - apply growing_emit.
Qed.

(** The message case never attempts a delivery itself. *)
Lemma onMessage_attempts (config : Config) (msg : events.Message) (p : Proc W) :
  attempts (trace (onMessage host config msg p).2) = attempts (trace p).
Proof.
  unfold onMessage. case_bool_decide.
  { destruct (makeStartMessage msg); cbn; [done|].
    unfold attempts. rewrite omap_app. cbn. by rewrite app_nil_r. }
  case_bool_decide; [|done].
  unfold mbind, M_bind, emit, call. cbn.
  destruct (ContainerLogs host _ _ _) as [[reader|err] w];
    [destruct (makeDieMessage msg reader)|]; cbn;
    unfold attempts; rewrite !omap_app; cbn; by rewrite ?app_nil_r.
Qed.

Lemma select_loop_growing (config : Config) (ws : list wakeup) :
  growing (select_loop host config ws).
Proof.
  induction ws as [|[msg|err|i] ws IH]; cbn; [by intros p| |by intros p|].
  - apply growing_bind; [apply onMessage_growing | done].
  - apply growing_bind; [apply run_goroutine_growing | done].
Qed.

(** The loop of [start] returns or stays blocked; it never ends the
    process. *)
Lemma select_loop_not_Exited (config : Config) (ws : list wakeup) (p : Proc W) :
  (select_loop host config ws p).1 ≠ Exited.
Proof.
  revert p. induction ws as [|[msg|err|i] ws IH]; intros p; cbn; [done| |done|].
  - unfold mbind, M_bind. pose proof (onMessage_returns config msg p) as Hr.
    destruct (onMessage host config msg p) as [r p']. cbn in Hr. subst r. apply IH.
  - unfold mbind, M_bind. pose proof (run_goroutine_returns i p) as Hr.
    destruct (run_goroutine host i p) as [r p']. cbn in Hr. subst r. apply IH.
Qed.

Lemma start_growing (config : Config) (ws : list wakeup) :
  growing (start host config ws).
Proof.
  unfold start. apply growing_bind; [apply growing_emit|]. intros _.
  apply growing_bind; [apply select_loop_growing|]. intros err.
  apply growing_bind; [apply growing_emit | intros _; apply growing_ret].
Qed.

Lemma start_not_Exited (config : Config) (ws : list wakeup) (p : Proc W) :
  (start host config ws p).1 ≠ Exited.
Proof.
  unfold start, mbind, M_bind. cbn.
  pose proof (select_loop_not_Exited config ws (logged p [Subscribe])) as Hs.
  unfold logged in Hs.
  by destruct (select_loop host config ws _) as [[err| |] p'].
Qed.

(** Every subscription starts with the call of [cli.Events]. *)
Lemma start_subscribes (config : Config) (ws : list wakeup) (p : Proc W) :
  trace p ++ [Subscribe] `prefix_of` trace (start host config ws p).2.
Proof.
  unfold start. unfold mbind at 1. unfold M_bind at 1. rewrite emit_run.
  match goal with |- context [trace (?m ?q).2] =>
    assert (Hg : growing m); [|exact (Hg q)] end.
  apply growing_bind; [apply select_loop_growing|]. intros err.
  apply growing_bind; [apply growing_emit | intros _; apply growing_ret].
Qed.

Lemma forever_growing (config : Config) (subs : list (list wakeup)) :
  growing (forever host config subs).
Proof.
  induction subs as [|ws subs IH]; cbn.
  - apply growing_bind; [apply start_growing | by intros ? ?].
  - apply growing_bind; [apply start_growing|]. intros err.
    apply growing_bind; [|intros _; exact IH].
    destruct err; [apply growing_emit | apply growing_ret].
Qed.

(** The loop of [main] never returns and never ends the process, and
    its first act is to subscribe. *)
Lemma forever_Blocked (config : Config) (subs : list (list wakeup)) (p : Proc W) :
  (forever host config subs p).1 = Blocked.
Proof.
  revert p. induction subs as [|ws subs IH]; intros p; cbn.
  - unfold mbind, M_bind. pose proof (start_not_Exited config [] p) as Hs.
    by destruct (start host config [] p) as [[err| |] p'].
  - unfold mbind at 1. unfold M_bind at 1.
    pose proof (start_not_Exited config ws p) as Hs.
    destruct (start host config ws p) as [[err| |] p']; [|done..].
    unfold mbind, M_bind. destruct err as [e|]; cbn; apply IH.
Qed.

Lemma forever_subscribes (config : Config) (subs : list (list wakeup)) (p : Proc W) :
  trace p ++ [Subscribe] `prefix_of` trace (forever host config subs p).2.
Proof.
  destruct subs as [|ws subs]; cbn.
  - unfold mbind, M_bind. pose proof (start_subscribes config [] p) as Hs.
    by destruct (start host config [] p) as [[err| |] p'].
  - unfold mbind at 1. unfold M_bind at 1.
    pose proof (start_subscribes config ws p) as Hs.
    destruct (start host config ws p) as [[err| |] p']; [|done..].
    cbn in Hs. etrans; [exact Hs|].
    match goal with |- context [trace (?m ?q).2] =>
      assert (Hg : growing m); [|exact (Hg q)] end.
    apply growing_bind.
    + destruct err; [apply growing_emit | apply growing_ret].
    + intros _. apply forever_growing.
Qed.

End WatchLoop.

Section WatchLoopClaims.
Context {W : Type} (host : Host W).

(** C5: a start event without [name] makes [makeStartMessage] fail
    with the error [no name] and no message; the loop prints the
    error, queues nothing, and goes on with what arrives next. *)
Theorem start_event_without_name (config : Config) (msg : events.Message)
    (ws : list wakeup) (p : Proc W) :
  events.Status msg = Start →
  events.Attributes (events.Actor msg) !! "name" = None →
  makeStartMessage msg = inr "no name" ∧
  onMessage host config msg p = (Val tt, logged p [Println "no name"]) ∧
  goroutines (onMessage host config msg p).2 = goroutines p ∧
  select_loop host config (RecvMsg msg :: ws) p
    = select_loop host config ws (logged p [Println "no name"]).
Proof.
  intros Hstatus Hname.
  assert (Hmake : makeStartMessage msg = inr "no name").
  { unfold makeStartMessage. by rewrite Hname. }
  assert (Hbody : onMessage host config msg p = (Val tt, logged p [Println "no name"])).
  { unfold onMessage. rewrite bool_decide_eq_true_2 by done. by rewrite Hmake. }
  repeat split; [done..| |]; [by rewrite Hbody|].
  cbn. by rewrite (bind_Val _ _ _ _ _ Hbody).
Qed.

(** Removing an ignored event from what the loop receives. *)
Lemma select_loop_skip (config : Config) (msg : events.Message)
    (pre post : list wakeup) :
  (∀ q, onMessage host config msg q = (Val tt, q)) →
  ∀ q, select_loop host config (pre ++ RecvMsg msg :: post) q
       = select_loop host config (pre ++ post) q.
Proof.
  intros Hskip. induction pre as [|[msg'|err|i] pre IH]; intros q; cbn.
  - by rewrite (bind_Val _ _ _ _ _ (Hskip q)).
  - unfold mbind, M_bind. by destruct (onMessage host config msg' q) as [[[]| |] q'].
  - done.
  - unfold mbind, M_bind. by destruct (run_goroutine host i q) as [[[]| |] q'].
Qed.

(** C6: an event whose status is neither [start] nor [die] changes
    nothing: no message, no goroutine, no output, no error; the loop
    and the whole subscription run as if the event had not arrived. *)
Theorem other_status_ignored (config : Config) (msg : events.Message) :
  events.Status msg ≠ Start →
  events.Status msg ≠ Die →
  (∀ p, onMessage host config msg p = (Val tt, p)) ∧
  (∀ pre post p,
     select_loop host config (pre ++ RecvMsg msg :: post) p
     = select_loop host config (pre ++ post) p) ∧
  (∀ pre post p,
     start host config (pre ++ RecvMsg msg :: post) p
     = start host config (pre ++ post) p).
Proof.
  intros Hs Hd.
  assert (Hskip : ∀ p, onMessage host config msg p = (Val tt, p)).
  { intros p. unfold onMessage. by rewrite !bool_decide_eq_false_2 by done. }
  split; [exact Hskip|]. split.
  - intros pre post p. by apply select_loop_skip.
  - intros pre post p. unfold start, mbind, M_bind. cbn.
    by rewrite select_loop_skip.
Qed.

Lemma makeDieMessage_read_error (msg : events.Message) (name exitCode : string)
    (logReder : io.Reader) (e : error) :
  events.Attributes (events.Actor msg) !! "name" = Some name →
  events.Attributes (events.Actor msg) !! "exitCode" = Some exitCode →
  (ioutil.ReadAll logReder).2 = Some e →
  makeDieMessage msg logReder = inr e.
Proof.
  intros Hname Hcode Hread. unfold makeDieMessage. rewrite Hcode, Hname.
  destruct (ioutil.ReadAll logReder) as [b [e'|]]; cbn in Hread; congruence.
Qed.

(** C2, as the code has it: when the logs of a die event cannot be
    fetched, because the daemon gives no reader or because reading
    fails, the error is printed and the event is dropped: no message
    is queued for delivery, and the loop goes on with what arrives
    next. *)
Theorem die_event_without_logs (config : Config) (msg : events.Message)
    (name exitCode : string) (e : error) (p : Proc W) :
  events.Status msg = Die →
  events.Attributes (events.Actor msg) !! "name" = Some name →
  events.Attributes (events.Actor msg) !! "exitCode" = Some exitCode →
  let r := ContainerLogs host (events.ID msg) logsOptions (world p) in
  r.1 = inr e ∨ (∃ reader, r.1 = inl reader ∧ (ioutil.ReadAll reader).2 = Some e) →
  let p' := logged (at_world p r.2) [Logs (events.ID msg) logsOptions; Println e] in
  onMessage host config msg p = (Val tt, p') ∧
  goroutines p' = goroutines p ∧
  ∀ ws, select_loop host config (RecvMsg msg :: ws) p
        = select_loop host config ws p'.
Proof.
  intros Hstatus Hname Hcode r Hfail p'.
  assert (Hbody : onMessage host config msg p = (Val tt, p')).
  { unfold onMessage. rewrite Hstatus.
    rewrite (bool_decide_eq_false_2 (Die = Start)) by discriminate.
    rewrite (bool_decide_eq_true_2 (Die = Die)) by done.
    unfold mbind, M_bind, emit, call. cbn. subst p' r.
    destruct (ContainerLogs host (events.ID msg) logsOptions (world p))
      as [[reader|err] w]; cbn in *.
    - destruct Hfail as [Hfail|(reader' & Heq & Hread)]; [done|].
      simplify_eq.
      rewrite (makeDieMessage_read_error msg name exitCode reader' e) by done.
      by io_step.
    - destruct Hfail as [Hfail|(reader' & Heq & _)]; [|done].
      simplify_eq. by io_step. }
  split; [exact Hbody|]. split; [done|].
  intros ws. cbn. by rewrite (bind_Val _ _ _ _ _ Hbody).
Qed.

Lemma select_loop_until_error (config : Config) (pre rest : list wakeup)
    (err : option error) (p : Proc W) :
  (∀ e, RecvErr e ∉ pre) →
  select_loop host config (pre ++ RecvErr err :: rest) p
  = (Val err, (select_loop host config pre p).2).
Proof.
  revert p. induction pre as [|[msg|err'|i] pre IH]; intros p Hpre; cbn.
  - done.
  - unfold mbind, M_bind. pose proof (onMessage_returns host config msg p) as Hr.
    destruct (onMessage host config msg p) as [r q]. cbn in Hr. subst r.
    apply IH. intros e He. apply (Hpre e). by right.
  - exfalso. apply (Hpre err'). by left.
  - unfold mbind, M_bind. pose proof (run_goroutine_returns host i p) as Hr.
    destruct (run_goroutine host i p) as [r q]. cbn in Hr. subst r.
    apply IH. intros e He. apply (Hpre e). by right.
Qed.

(** The message case prints every error of the classification of an
    event: that of [makeStartMessage], that of [cli.ContainerLogs] and
    that of [makeDieMessage]. *)
Lemma onMessage_logs_error (config : Config) (msg : events.Message) (q : Proc W) :
  (∀ e, events.Status msg = Start → makeStartMessage msg = inr e →
        onMessage host config msg q = (Val tt, logged q [Println e])) ∧
  (∀ e w, events.Status msg = Die →
          ContainerLogs host (events.ID msg) logsOptions (world q) = (inr e, w) →
          onMessage host config msg q
          = (Val tt, logged (at_world q w)
                       [Logs (events.ID msg) logsOptions; Println e])) ∧
  (∀ reader e w, events.Status msg = Die →
                 ContainerLogs host (events.ID msg) logsOptions (world q)
                 = (inl reader, w) →
                 makeDieMessage msg reader = inr e →
                 onMessage host config msg q
                 = (Val tt, logged (at_world q w)
                              [Logs (events.ID msg) logsOptions; Println e])).
Proof.
  split; [|split].
  - intros e Hstatus Hmake. unfold onMessage.
    rewrite bool_decide_eq_true_2 by done. by rewrite Hmake.
  - intros e w Hstatus Hlogs. unfold onMessage. rewrite Hstatus.
    rewrite (bool_decide_eq_false_2 (Die = Start)) by discriminate.
    rewrite (bool_decide_eq_true_2 (Die = Die)) by done.
    unfold mbind, M_bind, emit, call. cbn. rewrite Hlogs. by io_step.
  - intros reader e w Hstatus Hlogs Hmake. unfold onMessage. rewrite Hstatus.
    rewrite (bool_decide_eq_false_2 (Die = Start)) by discriminate.
    rewrite (bool_decide_eq_true_2 (Die = Die)) by done.
    unfold mbind, M_bind, emit, call. cbn. rewrite Hlogs, Hmake. by io_step.
Qed.

(** [Send] prints every error of a delivery: that of [json.Marshal],
    that of the request to Slack, and that of the request to Discord,
    be Slack not configured or served before. *)
Lemma Send_logs_error (m : Message) (c : Config) (q : Proc W) :
  let ct := "application/json" in
  (∀ e, json_Marshal host m = inr e →
        Send host m c q = (Val tt, logged q [Println e])) ∧
  (∀ b e w, json_Marshal host m = inl b → SlackURL c ≠ "" →
            http_Post host (SlackURL c) ct b (world q) = (inr e, w) →
            Send host m c q
            = (Val tt, logged (at_world q w) [Post (SlackURL c) ct b; Println e])) ∧
  (∀ b e w, json_Marshal host m = inl b → SlackURL c = "" → DiscordURL c ≠ "" →
            http_Post host (DiscordURL c) ct b (world q) = (inr e, w) →
            Send host m c q
            = (Val tt, logged (at_world q w) [Post (DiscordURL c) ct b; Println e])) ∧
  (∀ b r w e w', json_Marshal host m = inl b →
                 SlackURL c ≠ "" → DiscordURL c ≠ "" →
                 http_Post host (SlackURL c) ct b (world q) = (inl r, w) →
                 http_Post host (DiscordURL c) ct b w = (inr e, w') →
                 Send host m c q
                 = (Val tt, logged (at_world q w')
                              [Post (SlackURL c) ct b; Post (DiscordURL c) ct b;
                               Println e])).
Proof.
  intros ct. split; [|split; [|split]].
  - intros e Hb. unfold Send. by rewrite Hb.
  - intros b e w Hb Hs Hpost. unfold Send. rewrite Hb.
    rewrite (bool_decide_eq_true_2 (SlackURL c ≠ "")) by done.
    unfold mbind, M_bind. rewrite post_run. fold ct. rewrite Hpost. by io_step.
  - intros b e w Hb Hs Hd Hpost. unfold Send. rewrite Hb.
    rewrite (bool_decide_eq_false_2 (SlackURL c ≠ "")) by (by intros ?).
    rewrite (bool_decide_eq_true_2 (DiscordURL c ≠ "")) by done.
    unfold mbind, M_bind. cbn.
    rewrite post_run. fold ct. rewrite Hpost. by io_step.
  - intros b r w e w' Hb Hs Hd Hp1 Hp2.
    rewrite (Send_run_both host m c b q Hb Hs Hd). fold ct. by rewrite Hp1, Hp2.
Qed.

(** C8: when a value arrives on the error channel, [start] leaves
    its loop and returns it after the deferred [cancel]; the loop of
    [main] prints the error and calls [start] again, which opens a
    new subscription.  Nothing that happens in the loop ends the
    process: the message case and every delivery return, and the loop
    of [main] is never left.  Every error of the classification of an
    event and every error of a delivery is printed where it arises,
    and the loop goes on with the next wake-up. *)
Theorem reconnect_after_error (config : Config) (pre rest : list wakeup)
    (err : option error) (subs : list (list wakeup)) (p : Proc W) :
  (∀ e, RecvErr e ∉ pre) →
  let ws := pre ++ RecvErr err :: rest in
  let p1 := logged (streamed host config pre p) [Cancel] in
  let p2 := logged (streamed host config pre p) (Cancel :: report err) in
  let ct := "application/json" in
  start host config ws p = (Val err, p1) ∧
  forever host config (ws :: subs) p = forever host config subs p2 ∧
  trace p2 ++ [Subscribe] `prefix_of` trace (forever host config (ws :: subs) p).2 ∧
  (forever host config (ws :: subs) p).1 = Blocked ∧
  (∀ msg q, (onMessage host config msg q).1 = Val tt) ∧
  (∀ i q, (run_goroutine host i q).1 = Val tt) ∧
  (∀ subs' q, (forever host config subs' q).1 ≠ Exited) ∧
  (∀ msg q e, events.Status msg = Start → makeStartMessage msg = inr e →
     onMessage host config msg q = (Val tt, logged q [Println e])) ∧
  (∀ msg q e w, events.Status msg = Die →
     ContainerLogs host (events.ID msg) logsOptions (world q) = (inr e, w) →
     onMessage host config msg q
     = (Val tt, logged (at_world q w)
                  [Logs (events.ID msg) logsOptions; Println e])) ∧
  (∀ msg q reader e w, events.Status msg = Die →
     ContainerLogs host (events.ID msg) logsOptions (world q) = (inl reader, w) →
     makeDieMessage msg reader = inr e →
     onMessage host config msg q
     = (Val tt, logged (at_world q w)
                  [Logs (events.ID msg) logsOptions; Println e])) ∧
  (∀ m c q e, json_Marshal host m = inr e →
     Send host m c q = (Val tt, logged q [Println e])) ∧
  (∀ m c q b e w, json_Marshal host m = inl b → SlackURL c ≠ "" →
     http_Post host (SlackURL c) ct b (world q) = (inr e, w) →
     Send host m c q
     = (Val tt, logged (at_world q w) [Post (SlackURL c) ct b; Println e])) ∧
  (∀ m c q b e w, json_Marshal host m = inl b →
     SlackURL c = "" → DiscordURL c ≠ "" →
     http_Post host (DiscordURL c) ct b (world q) = (inr e, w) →
     Send host m c q
     = (Val tt, logged (at_world q w) [Post (DiscordURL c) ct b; Println e])) ∧
  (∀ m c q b r w e w', json_Marshal host m = inl b →
     SlackURL c ≠ "" → DiscordURL c ≠ "" →
     http_Post host (SlackURL c) ct b (world q) = (inl r, w) →
     http_Post host (DiscordURL c) ct b w = (inr e, w') →
     Send host m c q
     = (Val tt, logged (at_world q w')
                  [Post (SlackURL c) ct b; Post (DiscordURL c) ct b; Println e])) ∧
  (∀ msg ws' q,
     select_loop host config (RecvMsg msg :: ws') q
     = select_loop host config ws' (onMessage host config msg q).2) ∧
  (∀ i ws' q,
     select_loop host config (Run i :: ws') q
     = select_loop host config ws' (run_goroutine host i q).2).
Proof.
  intros Hpre ws p1 p2 ct.
  assert (Hstart : start host config ws p = (Val err, p1)).
  { unfold start, mbind, M_bind. rewrite emit_run. subst ws.
    rewrite select_loop_until_error by done. by io_step. }
  assert (Hloop : forever host config (ws :: subs) p = forever host config subs p2).
  { cbn. rewrite (bind_Val _ _ _ _ _ Hstart). subst p1 p2.
    destruct err as [e|]; cbn; unfold mbind, M_bind; cbn; [|done].
    unfold logged. cbn. by rewrite <- app_assoc. }
  split; [exact Hstart|]. split; [exact Hloop|].
  split; [rewrite Hloop; apply forever_subscribes|].
  split; [apply forever_Blocked|].
  split; [intros msg q; apply onMessage_returns|].
  split; [intros i q; apply run_goroutine_returns|].
  split; [intros subs' q; by rewrite forever_Blocked|].
  split; [intros msg q; apply (onMessage_logs_error config msg q)|].
  split; [intros msg q; apply (onMessage_logs_error config msg q)|].
  split; [intros msg q; apply (onMessage_logs_error config msg q)|].
  split; [intros m c q; apply (Send_logs_error m c q)|].
  split; [intros m c q; apply (Send_logs_error m c q)|].
  split; [intros m c q; apply (Send_logs_error m c q)|].
  split; [intros m c q; apply (Send_logs_error m c q)|].
  split.
  - intros msg ws' q. cbn. unfold mbind, M_bind.
    pose proof (onMessage_returns host config msg q) as Hr.
    destruct (onMessage host config msg q) as [r q']. cbn in Hr. by subst r.
  - intros i ws' q. cbn. unfold mbind, M_bind.
    pose proof (run_goroutine_returns host i q) as Hr.
    destruct (run_goroutine host i q) as [r q']. cbn in Hr. by subst r.
Qed.

Lemma delete_last {A} (l : list A) (x : A) : delete (length l) (l ++ [x]) = l.
Proof. induction l as [|y l IH]; [done|]. cbn. f_equal. exact IH. Qed.

(** While only events arrive, the loop consumes them all and no
    delivery is attempted. *)
Lemma select_loop_intake (config : Config) (msgs : list events.Message)
    (p : Proc W) :
  (select_loop host config (RecvMsg <$> msgs) p).1 = Blocked ∧
  attempts (trace (select_loop host config (RecvMsg <$> msgs) p).2)
    = attempts (trace p).
Proof.
  revert p. induction msgs as [|msg msgs IH]; intros p; cbn; [done|].
  unfold mbind, M_bind.
  pose proof (onMessage_returns host config msg p) as Hr.
  pose proof (onMessage_attempts host config msg p) as Ha.
  destruct (onMessage host config msg p) as [r q]. cbn in Hr, Ha. subst r.
  rewrite <- Ha. apply IH.
Qed.

(** C9: when an event gives a message, the message case queues the
    call [m.Send(config)] as a new goroutine and returns without any
    delivery attempt; the loop takes the next wake-up with that
    goroutine still waiting, and the delivery happens when the
    scheduler runs the goroutine.  Events are consumed one after the
    other while no delivery has been attempted. *)
Theorem payload_goes_to_a_goroutine (config : Config) (msg : events.Message)
    (m : Message) (ws : list wakeup) (p : Proc W) :
  (events.Status msg = Start ∧ makeStartMessage msg = inl m) ∨
  (events.Status msg = Die ∧
   ∃ reader,
     (ContainerLogs host (events.ID msg) logsOptions (world p)).1 = inl reader ∧
     makeDieMessage msg reader = inl m) →
  let p' := (onMessage host config msg p).2 in
  (onMessage host config msg p).1 = Val tt ∧
  goroutines p' = goroutines p ++ [(m, config)] ∧
  attempts (trace p') = attempts (trace p) ∧
  select_loop host config (RecvMsg msg :: ws) p = select_loop host config ws p' ∧
  run_goroutine host (length (goroutines p)) p'
    = Send host m config {| world := world p'; trace := trace p';
                            goroutines := goroutines p |} ∧
  (∀ msgs q,
     (select_loop host config (RecvMsg <$> msgs) q).1 = Blocked ∧
     attempts (trace (select_loop host config (RecvMsg <$> msgs) q).2)
       = attempts (trace q)).
Proof.
  intros Hm p'.
  assert (Hpool : goroutines p' = goroutines p ++ [(m, config)]).
  { subst p'. unfold onMessage.
    destruct Hm as [[Hstatus Hmake]|(Hstatus & reader & Hlogs & Hmake)];
      rewrite Hstatus.
    - rewrite (bool_decide_eq_true_2 (Start = Start)) by done.
      by rewrite Hmake.
    - rewrite (bool_decide_eq_false_2 (Die = Start)) by discriminate.
      rewrite (bool_decide_eq_true_2 (Die = Die)) by done.
      unfold mbind, M_bind, emit, call. cbn.
      destruct (ContainerLogs host (events.ID msg) logsOptions (world p))
        as [r w]. cbn in Hlogs. subst r. by rewrite Hmake. }
  pose proof (onMessage_returns host config msg p) as Hr.
  split; [exact Hr|]. split; [exact Hpool|].
  split; [apply onMessage_attempts|]. split; [|split].
  - cbn. unfold mbind, M_bind. subst p'.
    destruct (onMessage host config msg p) as [r q]. cbn in Hr. by subst r.
  - unfold run_goroutine. rewrite Hpool.
    rewrite lookup_app_r, Nat.sub_diag by done. cbn.
    by rewrite delete_last.
  - intros msgs q. apply select_loop_intake.
Qed.

End WatchLoopClaims.

(** ** Startup *)

Section Startup.
Context {W : Type} (host : Host W).

Lemma os_Getenv_empty (key : string) :
  os_Getenv host key = "" ↔ unset_or_empty host key.
Proof.
  unfold os_Getenv, unset_or_empty.
  destruct (environ host !! key) as [v|]; cbn; [|by intuition].
  split; [intros ->; by right | intros [?|?]; congruence].
Qed.

Lemma NewConfig_run :
  NewConfig host =
    if bool_decide (os_Getenv host "SLACK_URL" = "" ∧ os_Getenv host "DISCORD_URL" = "")
    then inr "SLACK_URL and/or DISCORD_URL must be set"
    else inl {| SlackURL := os_Getenv host "SLACK_URL";
                DiscordURL := os_Getenv host "DISCORD_URL" |}.
Proof.
  unfold NewConfig, SlackURLEnv, DiscordURLEnv.
  repeat case_bool_decide; cbn; try done; by intuition.
Qed.

(** [main] up to its loop, case by case. *)
Lemma main_run (subs : list (list wakeup)) (p : Proc W) :
  let apiVersion := os_Getenv host "API_VERSION" in
  let config := {| SlackURL := os_Getenv host "SLACK_URL";
                   DiscordURL := os_Getenv host "DISCORD_URL" |} in
  main host subs p =
    if bool_decide (apiVersion = "") then
      (Exited, logged p [Fatal "API_VERSION must be set as your docker api version"])
    else if bool_decide (SlackURL config = "" ∧ DiscordURL config = "") then
      (Exited, logged p [Fatal "SLACK_URL and/or DISCORD_URL must be set"])
    else
      match NewClientWithOpts host apiVersion (world p) with
      | (Some e, w) =>
          (Exited, logged (at_world p w) [NewClient apiVersion; Fatal e])
      | (None, w) =>
          forever host config subs (logged (at_world p w) [NewClient apiVersion])
      end.
Proof.
  intros apiVersion config. unfold main. fold apiVersion.
  case_bool_decide; [done|]. rewrite NewConfig_run. cbn.
  case_bool_decide; [done|].
  unfold mbind, M_bind, emit, call. cbn.
  destruct (NewClientWithOpts host apiVersion (world p)) as [[e|] w]; cbn.
  - by io_step.
  - done.
Qed.

(** C7: [main] ends the process with a fatal line as its first act,
    hence before the client is made and before any subscription,
    exactly when [API_VERSION] is unset or empty or both [SLACK_URL]
    and [DISCORD_URL] are.  Otherwise [NewConfig] accepts the
    endpoints as they are and [main] goes on to make the client and
    enter its loop. *)
Theorem startup_fails_iff (subs : list (list wakeup)) (p : Proc W) :
  let apiVersion := os_Getenv host "API_VERSION" in
  let config := {| SlackURL := os_Getenv host "SLACK_URL";
                   DiscordURL := os_Getenv host "DISCORD_URL" |} in
  (unset_or_empty host "API_VERSION" ∨
   (unset_or_empty host "SLACK_URL" ∧ unset_or_empty host "DISCORD_URL")
   ↔ ∃ line, main host subs p = (Exited, logged p [Fatal line])) ∧
  (unset_or_empty host "API_VERSION" →
   main host subs p =
     (Exited, logged p [Fatal "API_VERSION must be set as your docker api version"])) ∧
  (apiVersion ≠ "" →
   unset_or_empty host "SLACK_URL" ∧ unset_or_empty host "DISCORD_URL" →
   NewConfig host = inr "SLACK_URL and/or DISCORD_URL must be set" ∧
   main host subs p =
     (Exited, logged p [Fatal "SLACK_URL and/or DISCORD_URL must be set"])) ∧
  (apiVersion ≠ "" →
   SlackURL config ≠ "" ∨ DiscordURL config ≠ "" →
   NewConfig host = inl config ∧
   main host subs p =
     match NewClientWithOpts host apiVersion (world p) with
     | (Some e, w) =>
         (Exited, logged (at_world p w) [NewClient apiVersion; Fatal e])
     | (None, w) =>
         forever host config subs (logged (at_world p w) [NewClient apiVersion])
     end).
Proof.
  intros apiVersion config. pose proof (main_run subs p) as Hrun.
  cbv zeta in Hrun. fold apiVersion config in Hrun.
  rewrite <- !os_Getenv_empty. fold apiVersion.
  change (os_Getenv host "SLACK_URL") with (SlackURL config).
  change (os_Getenv host "DISCORD_URL") with (DiscordURL config).
  split; [split|split; [|split]].
  - intros Hbad. rewrite Hrun. case_bool_decide; [by eexists|].
    rewrite bool_decide_eq_true_2; [by eexists|]. by destruct Hbad.
  - intros [line Hmain]. rewrite Hrun in Hmain.
    case_bool_decide; [by left|]. right.
    case_bool_decide; [done|]. exfalso.
    destruct (NewClientWithOpts host apiVersion (world p)) as [[e|] w].
    + injection Hmain as Hw Ht. apply app_inv_head in Ht. discriminate Ht.
    + pose proof (forever_Blocked host config subs
                    (logged (at_world p w) [NewClient apiVersion])) as Hb.
      rewrite Hmain in Hb. discriminate Hb.
  - intros Hv. rewrite Hrun. by rewrite bool_decide_eq_true_2.
  - intros Hv Hsinks. split.
    + rewrite NewConfig_run. by rewrite bool_decide_eq_true_2.
    + rewrite Hrun. by rewrite bool_decide_eq_false_2, bool_decide_eq_true_2.
  - intros Hv Hsinks.
    assert (Hnot : ¬ (SlackURL config = "" ∧ DiscordURL config = "")) by tauto.
    split.
    + rewrite NewConfig_run. by rewrite bool_decide_eq_false_2.
    + rewrite Hrun. by rewrite !bool_decide_eq_false_2.
Qed.

End Startup.

(** ** The claims on simulated runs *)

(** C2 fails as stated: the die event carries [name] and [exitCode],
    the log fetch fails, and no message is queued; nothing is posted
    even when the scheduler gets its turn afterwards.  This holds for a
    refused log request and for a reader that breaks. *)
Lemma die_event_dropped_when_logs_fail :
  events.Attributes (events.Actor web1_died) !! "name" = Some "web1" ∧
  events.Attributes (events.Actor web1_died) !! "exitCode" = Some "137" ∧
  goroutines (onMessage logs_refused sim.both web1_died sim.boot).2 = [] ∧
  attempts (trace (select_loop logs_refused sim.both
                     [RecvMsg web1_died; Run 0] sim.boot).2) = [] ∧
  goroutines (onMessage logs_broken sim.both web1_died sim.boot).2 = [] ∧
  attempts (trace (select_loop logs_broken sim.both
                     [RecvMsg web1_died; Run 0] sim.boot).2) = [].
Proof. repeat split; by vm_compute. Qed.

Lemma die_event_without_logs_witness :
  onMessage logs_broken sim.both web1_died sim.boot
  = (Val tt, {| world := 1%nat;
                trace := [Logs "4f1c" logsOptions; Println "unexpected EOF"];
                goroutines := [] |}).
Proof.
  refine (proj1 (die_event_without_logs logs_broken sim.both web1_died
                   "web1" "137" "unexpected EOF" sim.boot
                   eq_refl eq_refl eq_refl _)).
  right. exists (io.Data "listening on :80" (io.Failed "unexpected EOF")).
  split; reflexivity.
Defined.

Lemma start_event_without_name_witness :
  makeStartMessage anon_started = inr "no name" ∧
  select_loop both_500 sim.both [RecvMsg anon_started; RecvErr None] sim.boot
  = (Val None, {| world := 0%nat; trace := [Println "no name"];
                  goroutines := [] |}).
Proof.
  destruct (start_event_without_name both_500 sim.both anon_started
              [RecvErr None] sim.boot eq_refl eq_refl) as (Hmake & _ & _ & Hloop).
  split; [exact Hmake | exact Hloop].
Defined.

Lemma other_status_ignored_witness :
  select_loop both_500 sim.both
    [RecvMsg web1_started; RecvMsg web1_destroyed; RecvErr None] sim.boot
  = select_loop both_500 sim.both
      [RecvMsg web1_started; RecvErr None] sim.boot.
Proof.
  assert (Hs : events.Status web1_destroyed ≠ Start) by discriminate.
  assert (Hd : events.Status web1_destroyed ≠ Die) by discriminate.
  destruct (other_status_ignored both_500 sim.both web1_destroyed Hs Hd)
    as (_ & Hloop & _).
  exact (Hloop [RecvMsg web1_started] [RecvErr None] sim.boot).
Defined.

Lemma reconnect_after_error_witness :
  trace (start both_500 sim.both
           [RecvMsg web1_started; Run 0; RecvErr (Some "unexpected EOF")]
           sim.boot).2
  = [Subscribe;
     Post sim.slack "application/json"
          "Container started. name => web1 image => nginx:latest";
     Post sim.discord "application/json"
          "Container started. name => web1 image => nginx:latest";
     Cancel] ∧
  (forever both_500 sim.both
     [[RecvMsg web1_started; Run 0; RecvErr (Some "unexpected EOF")];
      [RecvMsg web1_destroyed]] sim.boot).1 = Blocked ∧
  onMessage both_500 sim.both anon_started sim.boot
  = (Val tt, logged sim.boot [Println "no name"]).
Proof.
  assert (Hpre : ∀ e, RecvErr e ∉ [RecvMsg web1_started; Run 0]).
  { intros e He. apply elem_of_cons in He as [He|He]; [discriminate He|].
    apply elem_of_cons in He as [He|He]; [discriminate He|].
    by apply elem_of_nil in He. }
  destruct (reconnect_after_error both_500 sim.both
              [RecvMsg web1_started; Run 0] [] (Some "unexpected EOF")
              [[RecvMsg web1_destroyed]] sim.boot Hpre)
    as (Hstart & _ & _ & Hblocked & _ & _ & _ & Hname & _).
  split; [|split; [exact Hblocked|]].
  - cbv zeta in Hstart. cbn [app] in Hstart. rewrite Hstart. reflexivity.
  - exact (Hname anon_started sim.boot "no name" eq_refl eq_refl).
Defined.

Lemma payload_goes_to_a_goroutine_witness :
  goroutines (onMessage both_500 sim.both web1_started sim.boot).2
  = [({| Message_Text := "";
         Attachments :=
           [Attachment_lit "Container started. name => web1 image => nginx:latest"
                           StartColor 1000] |}, sim.both)] ∧
  attempts (trace (onMessage both_500 sim.both web1_started sim.boot).2) = [].
Proof.
  assert (Hm : (events.Status web1_started = Start ∧
                makeStartMessage web1_started
                = inl {| Message_Text := "";
                         Attachments :=
                           [Attachment_lit
                              "Container started. name => web1 image => nginx:latest"
                              StartColor 1000] |}) ∨
               (events.Status web1_started = Die ∧
                ∃ reader,
                  (ContainerLogs both_500 (events.ID web1_started) logsOptions
                     (world sim.boot)).1 = inl reader ∧
                  makeDieMessage web1_started reader
                  = inl {| Message_Text := "";
                           Attachments :=
                             [Attachment_lit
                                "Container started. name => web1 image => nginx:latest"
                                StartColor 1000] |})).
  { left. split; reflexivity. }
  destruct (payload_goes_to_a_goroutine both_500 sim.both web1_started _
              [RecvMsg web1_died; Run 0] sim.boot Hm) as (_ & Hpool & Hatt & _).
  split; [exact Hpool | exact Hatt].
Defined.

Lemma startup_fails_iff_witness :
  (∃ line, main no_version [] sim.boot = (Exited, logged sim.boot [Fatal line])) ∧
  main both_500 [] sim.boot
  = forever both_500 sim.both []
      {| world := 1%nat; trace := [NewClient "1.37"]; goroutines := [] |}.
Proof.
  split.
  - apply (proj1 (startup_fails_iff no_version [] sim.boot)).
    left. left. reflexivity.
  - assert (Hv : os_Getenv both_500 "API_VERSION" ≠ "") by discriminate.
    assert (Hs : SlackURL {| SlackURL := os_Getenv both_500 "SLACK_URL";
                             DiscordURL := os_Getenv both_500 "DISCORD_URL" |} ≠ ""
                 ∨ DiscordURL {| SlackURL := os_Getenv both_500 "SLACK_URL";
                                 DiscordURL := os_Getenv both_500 "DISCORD_URL" |} ≠ "").
    { left. discriminate. }
    exact (proj2 (proj2 (proj2 (proj2 (startup_fails_iff both_500 [] sim.boot)))
                   Hv Hs)).
Defined.

(** A whole run: two events, both deliveries, the loss of the
    subscription, and an event without name on the next subscription. *)
Example main_simulated_run :
  main both_500
       [[RecvMsg web1_started; RecvMsg web1_died; Run 0; Run 0;
         RecvErr (Some "unexpected EOF")];
        [RecvMsg anon_started]] sim.boot
  = (Blocked,
     {| world := 6%nat;
        trace :=
          [NewClient "1.37"; Subscribe; Logs "4f1c" logsOptions;
           Post sim.slack "application/json"
                "Container started. name => web1 image => nginx:latest";
           Post sim.discord "application/json"
                "Container started. name => web1 image => nginx:latest";
           Post sim.slack "application/json"
                "Container died. name => web1 image => nginx:latest status code => 137";
           Post sim.discord "application/json"
                "Container died. name => web1 image => nginx:latest status code => 137";
           Cancel; Println "unexpected EOF"; Subscribe; Println "no name"];
        goroutines := [] |}).
Proof. by vm_compute. Qed.

(** * Further properties of the code *)

(** ** What a computation keeps and adds *)

Section Keeps.
Context {W : Type}.
Implicit Types (Q : list (Message * Config) → Prop) (P : effect → Prop).

Lemma keeps_ret {A} Q P (a : A) : keeps Q P (mret (M:=M W) a).
Proof. intros p HQ. split; [done|]. exists []. by rewrite app_nil_r. Qed.

Lemma keeps_emit Q P (e : effect) : P e → keeps Q P (emit (W:=W) e).
Proof.
  intros He p HQ. split; [done|]. exists [e]. split; [done | by constructor].
Qed.

Lemma keeps_call {A} Q P (f : W → A * W) : keeps Q P (call f).
Proof.
  intros p HQ. unfold call. destruct (f (world p)). cbn.
  split; [done|]. exists []. by rewrite app_nil_r.
Qed.

Lemma keeps_block {A} Q P : keeps Q P (block (W:=W) (A:=A)).
Proof. intros p HQ. split; [done|]. exists []. by rewrite app_nil_r. Qed.

Lemma keeps_go_Send Q P (m : Message) (config : Config) :
  (∀ l, Q l → Q (l ++ [(m, config)])) → keeps Q P (go_Send (W:=W) m config).
Proof.
  intros Hadd p HQ. cbn. split; [by apply Hadd|]. exists [].
  by rewrite app_nil_r.
Qed.

Lemma keeps_bind {A B} Q P (m : M W A) (k : A → M W B) :
  keeps Q P m → (∀ a, keeps Q P (k a)) → keeps Q P (m ≫= k).
Proof.
  intros Hm Hk p HQ. unfold mbind, M_bind.
  destruct (Hm p HQ) as (HQ' & es & Ht & Hes).
  destruct (m p) as [[a| |] p']; cbn in *; [|by split; [|exists es]..].
  destruct (Hk a p' HQ') as (HQ'' & es' & Ht' & Hes'). split; [done|].
  exists (es ++ es'). split.
  - by rewrite Ht', Ht, app_assoc.
  - by apply Forall_app.
Qed.

Lemma keeps_weaken {A} Q P P' (m : M W A) :
  (∀ e, P e → P' e) → keeps Q P m → keeps Q P' m.
Proof.
  intros HPP Hm p HQ. destruct (Hm p HQ) as (HQ' & es & Ht & Hes).
  split; [done|]. exists es. split; [done|]. by eapply Forall_impl.
Qed.

End Keeps.

(** ** More on the dispatcher *)

(** Case analysis on a call of [Send]: the outcome of [json.Marshal],
    the two endpoints, and the outcome of every request made. *)
Ltac send_posts :=
  unfold mbind, M_bind; repeat case_bool_decide; cbn; rewrite ?post_run; cbn;
  repeat (match goal with
          | |- context [http_Post ?hh ?uu ?cc ?bb ?ww] =>
              destruct (http_Post hh uu cc bb ww) as [[?r|?e] ?w] eqn:?Hpost
          end; cbn; rewrite ?post_run; cbn).

Ltac send_cases :=
  unfold Send;
  match goal with
  | |- context [json_Marshal ?hh ?mm] =>
      destruct (json_Marshal hh mm) as [?b|?e] eqn:?Hmarshal
  end;
  [ send_posts | ]; io_step.

Section FurtherDispatcher.
Context {W : Type} (host : Host W).

Lemma post_keeps Q P (u body : string) :
  P (Post u "application/json" body) → keeps Q P (post host u body).
Proof.
  intros HP. unfold post. apply keeps_bind; [by apply keeps_emit|]. intros _.
  apply keeps_bind; [apply keeps_call|]. intros [resp|err]; apply keeps_ret.
Qed.

Lemma Send_keeps Q (m : Message) (config : Config) :
  keeps Q (send_effect host m config) (Send host m config).
Proof.
  unfold Send. destruct (json_Marshal host m) as [b|err] eqn:Hb;
    [|by apply keeps_emit].
  assert (Hpost : ∀ u, u ≠ "" → u = SlackURL config ∨ u = DiscordURL config →
                       keeps Q (send_effect host m config) (post host u b)).
  { intros u Hu Hor. apply post_keeps. by cbn. }
  apply keeps_bind.
  { case_bool_decide; [apply Hpost; auto | apply keeps_ret]. }
  intros [e|]; [by apply keeps_emit|].
  case_bool_decide; [|apply keeps_ret].
  apply keeps_bind; [apply Hpost; auto|].
  intros [e|]; [by apply keeps_emit | apply keeps_ret].
Qed.

(** X1: [Send] leaves the queue of goroutines alone, and all it does is
    print and post; every request has the JSON content type, the
    encoding of the message as its body, and goes to an endpoint of the
    configuration that is not empty. *)
Theorem Send_posts_only_configured (m : Message) (config : Config) (p : Proc W) :
  goroutines (Send host m config p).2 = goroutines p ∧
  ∃ es, trace (Send host m config p).2 = trace p ++ es ∧
        Forall (send_effect host m config) es.
Proof.
  exact (Send_keeps (λ l, l = goroutines p) m config p eq_refl).
Qed.

(** X2: the delivery attempts of [Send] are an initial part of the list
    of the configured endpoints, Slack before Discord, empty ones left
    out. *)
Theorem Send_attempts_prefix (m : Message) (config : Config) (p : Proc W) :
  ∃ k, attempts (trace (Send host m config p).2)
       = attempts (trace p)
         ++ take k (filter (λ u, u ≠ "") [SlackURL config; DiscordURL config]).
Proof.
  unfold attempts. send_cases; rewrite ?omap_app; cbn.
  all: repeat case_decide; try done.
  all: first [ exists 2%nat; reflexivity
             | exists 1%nat; reflexivity
             | exists 0%nat; cbn; rewrite ?app_nil_r; reflexivity ].
Qed.

(** X3: [Send] prints at most one line, and when it prints none the
    message was encoded and every configured endpoint was attempted. *)
Theorem Send_silent_means_delivered (m : Message) (config : Config) (p : Proc W) :
  length (printed (trace (Send host m config p).2))
    ≤ S (length (printed (trace p))) ∧
  (printed (trace (Send host m config p).2) = printed (trace p) →
   (∃ b, json_Marshal host m = inl b) ∧
   attempts (trace (Send host m config p).2)
     = attempts (trace p)
       ++ filter (λ u, u ≠ "") [SlackURL config; DiscordURL config]).
Proof.
  split.
  { unfold printed. send_cases; rewrite ?omap_app, ?length_app; cbn; lia. }
  unfold attempts, printed. send_cases; rewrite ?omap_app; cbn.
  all: rewrite ?app_nil_r; intros Hsilent.
  all: try (exfalso; symmetry in Hsilent;
            rewrite <- (app_nil_r (omap _ (trace p))) in Hsilent at 1;
            apply app_inv_head in Hsilent; discriminate Hsilent).
  all: split; [by eexists|]; repeat case_decide; by rewrite ?app_nil_r.
Qed.

(** X4: with one endpoint configured [Send] makes exactly one request,
    to that endpoint, and prints the error if the request fails; with
    none configured it does nothing at all. *)
Theorem Send_single_endpoint (m : Message) (config : Config) (b : string)
    (p : Proc W) :
  json_Marshal host m = inl b →
  let ct := "application/json" in
  let failure (r : (http.Response + error) * W) :=
    match r.1 with inl _ => None | inr e => Some e end in
  (SlackURL config ≠ "" → DiscordURL config = "" →
   trace (Send host m config p).2
   = trace p ++ Post (SlackURL config) ct b
                :: report (failure (http_Post host (SlackURL config) ct b (world p)))) ∧
  (SlackURL config = "" → DiscordURL config ≠ "" →
   trace (Send host m config p).2
   = trace p ++ Post (DiscordURL config) ct b
                :: report (failure (http_Post host (DiscordURL config) ct b (world p)))) ∧
  (SlackURL config = "" → DiscordURL config = "" →
   Send host m config p = (Val tt, p)).
Proof.
  intros Hb ct failure. subst ct failure. unfold Send. rewrite Hb.
  unfold mbind, M_bind. split; [|split]; intros Hs Hd.
  - rewrite bool_decide_eq_true_2 by done. rewrite post_run.
    destruct (http_Post host (SlackURL config) _ b (world p)) as [[r|e] w]; cbn.
    + rewrite bool_decide_eq_false_2 by (by intros ?). done.
    + by rewrite <- app_assoc.
  - rewrite bool_decide_eq_false_2 by (by intros ?). cbn.
    rewrite bool_decide_eq_true_2 by done. rewrite post_run.
    destruct (http_Post host (DiscordURL config) _ b (world p)) as [[r|e] w]; cbn;
      [done | by rewrite <- app_assoc].
  - rewrite bool_decide_eq_false_2 by (by intros ?). cbn.
    by rewrite bool_decide_eq_false_2 by (by intros ?).
Qed.

End FurtherDispatcher.

(** ** More on the classifier *)

Lemma ReadAll_chunked (cs : list string) (last : io.Reader) :
  ioutil.ReadAll (chunked cs last)
  = (bytes_of cs +:+ (ioutil.ReadAll last).1, (ioutil.ReadAll last).2).
Proof.
  induction cs as [|c cs IH]; cbn.
  - by destruct (ioutil.ReadAll last).
  - change (foldr io.Data last cs) with (chunked cs last). rewrite IH. cbn.
    f_equal. clear. induction c as [|a c IHc]; [done|].
    rewrite !append_String. by rewrite IHc.
Qed.

(** X5: [makeDieMessage] gives a message exactly when the event has
    [exitCode] and [name] and the log is read without error.  A missing
    [exitCode] is reported before a missing [name], and both before a
    failed read.  A message it gives has one attachment, in the die
    colour, with the time of the event and the fenced log. *)
Theorem makeDieMessage_outcome (msg : events.Message) (logReder : io.Reader) :
  let attrs := events.Attributes (events.Actor msg) in
  ((∃ m, makeDieMessage msg logReder = inl m) ↔
   is_Some (attrs !! "exitCode") ∧ is_Some (attrs !! "name") ∧
   (ioutil.ReadAll logReder).2 = None) ∧
  (attrs !! "exitCode" = None → makeDieMessage msg logReder = inr "no exitCode") ∧
  (is_Some (attrs !! "exitCode") → attrs !! "name" = None →
   makeDieMessage msg logReder = inr "no name") ∧
  (∀ m, makeDieMessage msg logReder = inl m →
        Message_Text m = "" ∧
        ∃ a, Attachments m = [a] ∧ Color a = DieColor ∧
             TS a = events.Time msg ∧ Fields a = [] ∧
             Text a = "```" +:+ (ioutil.ReadAll logReder).1 +:+ "```").
Proof.
  intros attrs. unfold makeDieMessage. fold attrs.
  destruct (attrs !! "exitCode") as [code|], (attrs !! "name") as [name|],
    (ioutil.ReadAll logReder) as [b [e|]].
  all: cbn [fst snd]; split; [split|split; [|split]].
  all: try (intros [m Hm]; discriminate Hm).
  all: try (intros (Hc & Hn & Hr); first [ by destruct Hc | by destruct Hn | done ]).
  all: try done.
  all: try (intros _; by eexists).
  all: try (intros [? ?]; done).
  all: try (repeat split; eauto; done).
  all: intros m [= <-]; split; [done|]; by eexists.
Qed.

(** X6: how the log arrives does not matter, only its bytes do: for an
    event with [name] and [exitCode], a log read in chunks gives the
    message of the same log read at once; an empty log gives the two
    fences with nothing between them; and when a read fails, the bytes
    read before are thrown away with the message. *)
Theorem makeDieMessage_chunks (msg : events.Message) (name exitCode : string)
    (cs : list string) (e : error) :
  events.Attributes (events.Actor msg) !! "name" = Some name →
  events.Attributes (events.Actor msg) !! "exitCode" = Some exitCode →
  makeDieMessage msg (chunked cs io.EOF)
    = makeDieMessage msg (io.Data (bytes_of cs) io.EOF) ∧
  (∃ m a, makeDieMessage msg io.EOF = inl m ∧ Attachments m = [a] ∧
          Text a = "``````") ∧
  makeDieMessage msg (chunked cs (io.Failed e)) = inr e.
Proof.
  intros Hname Hcode. unfold makeDieMessage. rewrite Hcode, Hname.
  rewrite !ReadAll_chunked. cbn. split; [done|]. split; [|done].
  by do 2 eexists.
Qed.

Lemma makeDieMessage_chunks_witness :
  makeDieMessage web1_died (chunked ["oom-"; "killed"] io.EOF)
    = makeDieMessage web1_died (io.Data "oom-killed" io.EOF) ∧
  makeDieMessage web1_died (chunked ["oom-"; "killed"] (io.Failed "unexpected EOF"))
    = inr "unexpected EOF".
Proof.
  destruct (makeDieMessage_chunks web1_died "web1" "137" ["oom-"; "killed"]
              "unexpected EOF" eq_refl eq_refl) as (Hsame & _ & Hfail).
  split; [exact Hsame | exact Hfail].
Defined.

(** ** More on the watch loop *)

Section FurtherWatchLoop.
Context {W : Type} (host : Host W).

Lemma makeStartMessage_one (msg : events.Message) (m : Message) :
  makeStartMessage msg = inl m → length (Attachments m) = 1%nat.
Proof.
  unfold makeStartMessage.
  destruct (events.Attributes (events.Actor msg) !! "name"); [|done].
  by intros [= <-].
Qed.

Lemma makeDieMessage_one (msg : events.Message) (r : io.Reader) (m : Message) :
  makeDieMessage msg r = inl m → length (Attachments m) = 1%nat.
Proof.
  unfold makeDieMessage.
  destruct (events.Attributes (events.Actor msg) !! "exitCode"); [|done].
  destruct (events.Attributes (events.Actor msg) !! "name"); [|done].
  destruct (ioutil.ReadAll r) as [b [e|]]; [done|]. by intros [= <-].
Qed.

Lemma send_effect_body (m : Message) (config : Config) (e : effect) :
  send_effect host m config e → body_effect config e.
Proof. destruct e; cbn; try done. by intros (? & ? & ? & ?). Qed.

Lemma body_effect_loop (config : Config) (e : effect) :
  body_effect config e → loop_effect config e.
Proof. by destruct e. Qed.

Lemma run_goroutine_keeps (config : Config) (i : nat) :
  keeps (Forall (queued_for config)) (body_effect config) (run_goroutine host i).
Proof.
  intros p HQ. unfold run_goroutine.
  destruct (goroutines p !! i) as [[m c]|] eqn:Hi.
  - assert (Hc : c = config).
    { apply (Forall_lookup_1 _ _ _ _ HQ) in Hi. by destruct Hi. }
    subst c.
    pose proof (keeps_weaken _ _ _ _ (send_effect_body m config)
                  (Send_keeps host (Forall (queued_for config)) m config))
      as Hsend.
    apply (Hsend {| world := world p; trace := trace p;
                    goroutines := delete i (goroutines p) |}).
    cbn. by apply Forall_delete.
  - split; [done|]. exists []. by rewrite app_nil_r.
Qed.

Lemma onMessage_keeps (config : Config) (msg : events.Message) :
  keeps (Forall (queued_for config)) (body_effect config)
        (onMessage host config msg).
Proof.
  assert (Hgo : ∀ m, length (Attachments m) = 1%nat →
                     keeps (Forall (queued_for config)) (body_effect config)
                           (go_Send (W:=W) m config)).
  { intros m Hm. apply keeps_go_Send. intros l Hl.
    apply Forall_app. split; [done|]. by repeat constructor. }
  unfold onMessage. case_bool_decide.
  { destruct (makeStartMessage msg) as [m|e] eqn:Hm.
    - apply Hgo. by eapply makeStartMessage_one.
    - by apply keeps_emit. }
  case_bool_decide; [|apply keeps_ret].
  apply keeps_bind; [by apply keeps_emit|]. intros _.
  apply keeps_bind; [apply keeps_call|]. intros [reader|err].
  - destruct (makeDieMessage msg reader) as [m|e] eqn:Hm.
    + apply Hgo. by eapply makeDieMessage_one.
    + by apply keeps_emit.
  - by apply keeps_emit.
Qed.

Lemma select_loop_keeps (config : Config) (ws : list wakeup) :
  keeps (Forall (queued_for config)) (body_effect config)
        (select_loop host config ws).
Proof.
  induction ws as [|[msg|err|i] ws IH]; cbn.
  - apply keeps_block.
  - apply keeps_bind; [apply onMessage_keeps | done].
  - apply keeps_ret.
  - apply keeps_bind; [apply run_goroutine_keeps | done].
Qed.

Lemma start_keeps (config : Config) (ws : list wakeup) :
  keeps (Forall (queued_for config)) (loop_effect config) (start host config ws).
Proof.
  unfold start. apply keeps_bind; [by apply keeps_emit|]. intros _.
  apply keeps_bind.
  { eapply keeps_weaken; [apply body_effect_loop | apply select_loop_keeps]. }
  intros err. apply keeps_bind; [by apply keeps_emit | intros _; apply keeps_ret].
Qed.

Lemma forever_keeps (config : Config) (subs : list (list wakeup)) :
  keeps (Forall (queued_for config)) (loop_effect config)
        (forever host config subs).
Proof.
  induction subs as [|ws subs IH]; cbn.
  - apply keeps_bind; [apply start_keeps | intros _; apply keeps_block].
  - apply keeps_bind; [apply start_keeps|]. intros err.
    apply keeps_bind; [|intros _; exact IH].
    destruct err; [by apply keeps_emit | apply keeps_ret].
Qed.

(** X8: the loop of [main] keeps its queue in order and itself within
    bounds.  If every queued delivery holds a message of one
    attachment and the configuration of the loop, then this is so
    after any run, and all that the run has done is open and cancel
    subscriptions, print, ask for logs with the options of the program,
    and post with the JSON content type to endpoints of the
    configuration that are not empty; it has not ended the process. *)
Theorem forever_stays_within_bounds (config : Config)
    (subs : list (list wakeup)) (p : Proc W) :
  Forall (queued_for config) (goroutines p) →
  Forall (queued_for config) (goroutines (forever host config subs p).2) ∧
  ∃ es, trace (forever host config subs p).2 = trace p ++ es ∧
        Forall (loop_effect config) es.
Proof. apply forever_keeps. Qed.

(** X9: a process that starts with an empty queue posts nowhere but
    to the values of [SLACK_URL] and [DISCORD_URL], with the JSON
    content type, and never to an empty URL. *)
Theorem main_posts_only_to_environment (subs : list (list wakeup)) (p : Proc W)
    (u ct body : string) :
  goroutines p = [] →
  Post u ct body ∈ trace (main host subs p).2 →
  Post u ct body ∈ trace p ∨
  (ct = "application/json" ∧ u ≠ "" ∧
   (u = os_Getenv host "SLACK_URL" ∨ u = os_Getenv host "DISCORD_URL")).
Proof.
  intros Hpool. rewrite main_run. cbv zeta.
  set (config := {| SlackURL := os_Getenv host "SLACK_URL";
                    DiscordURL := os_Getenv host "DISCORD_URL" |}).
  assert (Hold : ∀ es, Post u ct body ∈ trace p ++ es →
                       (∀ e, e ∈ es → e ≠ Post u ct body) →
                       Post u ct body ∈ trace p).
  { intros es Hin Hes. apply elem_of_app in Hin as [?|Hin]; [done|].
    by destruct (Hes _ Hin). }
  case_bool_decide.
  { intros Hin. left. apply (Hold _ Hin). intros e He.
    apply list_elem_of_singleton in He. by subst e. }
  case_bool_decide.
  { intros Hin. left. apply (Hold _ Hin). intros e He.
    apply list_elem_of_singleton in He. by subst e. }
  destruct (NewClientWithOpts host _ (world p)) as [[e|] w].
  { intros Hin. left. apply (Hold _ Hin). intros e' He.
    apply elem_of_cons in He as [->|He]; [done|].
    apply list_elem_of_singleton in He. by subst e'. }
  destruct (forever_keeps config subs
              (logged (at_world p w)
                 [NewClient (os_Getenv host "API_VERSION")])) as (_ & es & Ht & Hes).
  { cbn. rewrite Hpool. constructor. }
  rewrite Ht. cbn. rewrite <- app_assoc. intros Hin.
  apply elem_of_app in Hin as [?|Hin]; [by left|].
  apply elem_of_cons in Hin as [?|Hin]; [done|]. right.
  rewrite Forall_forall in Hes. apply Hes in Hin. exact Hin.
Qed.

End FurtherWatchLoop.

Section FurtherWatchLoopEffects.
Context {W : Type} (host : Host W).

Lemma send_effect_sends_only (m : Message) (config : Config) (e : effect) :
  send_effect host m config e → sends_only e.
Proof. by destruct e. Qed.

Lemma run_goroutine_sends_only (i : nat) :
  keeps (λ _, True) sends_only (run_goroutine host i).
Proof.
  intros p _. split; [done|]. unfold run_goroutine.
  destruct (goroutines p !! i) as [[m c]|].
  - pose proof (keeps_weaken _ _ _ _ (send_effect_sends_only m c)
                  (Send_keeps host (λ _, True) m c)) as Hsend.
    by apply (Hsend {| world := world p; trace := trace p;
                       goroutines := delete i (goroutines p) |}).
  - exists []. by rewrite app_nil_r.
Qed.

Lemma onMessage_intake (config : Config) (msg : events.Message) :
  keeps (λ _, True) (intake_effect msg) (onMessage host config msg).
Proof.
  unfold onMessage. case_bool_decide.
  { destruct (makeStartMessage msg); [by apply keeps_go_Send | by apply keeps_emit]. }
  case_bool_decide; [|apply keeps_ret].
  apply keeps_bind; [by apply keeps_emit|]. intros _.
  apply keeps_bind; [apply keeps_call|]. intros [reader|err].
  - destruct (makeDieMessage msg reader); [by apply keeps_go_Send | by apply keeps_emit].
  - by apply keeps_emit.
Qed.

(** The effects of the loop of one subscription: those of the message
    case for an event received, and those of deliveries. *)
Lemma select_loop_effects (config : Config) (ws : list wakeup) :
  keeps (λ _, True)
        (λ e, sends_only e ∨ ∃ msg, RecvMsg msg ∈ ws ∧ intake_effect msg e)
        (select_loop host config ws).
Proof.
  induction ws as [|[msg|err|i] ws IH]; cbn.
  - apply keeps_block.
  - apply keeps_bind.
    + eapply keeps_weaken; [|apply onMessage_intake].
      intros e He. right. exists msg. split; [by left | done].
    + intros _. eapply keeps_weaken; [|exact IH].
      intros e [?|(msg' & Hin & He)]; [by left|].
      right. exists msg'. split; [by right | done].
  - apply keeps_ret.
  - apply keeps_bind.
    + eapply keeps_weaken; [|apply run_goroutine_sends_only]. by left.
    + intros _. eapply keeps_weaken; [|exact IH].
      intros e [?|(msg' & Hin & He)]; [by left|].
      right. exists msg'. split; [by right | done].
Qed.

(** X10: the program asks the daemon for logs only with its fixed
    options (the last 30 seconds, standard output and standard error),
    and only for the container of a die event that the loop has
    received on this subscription. *)
Theorem logs_requested_only_for_die (config : Config) (ws : list wakeup)
    (p : Proc W) (id : string) (o : types.ContainerLogsOptions) :
  Logs id o ∈ trace (select_loop host config ws p).2 →
  Logs id o ∈ trace p ∨
  (o = {| types.Since := "30s"; types.ShowStdout := true;
          types.ShowStderr := true |} ∧
   ∃ msg, RecvMsg msg ∈ ws ∧ events.Status msg = Die ∧ events.ID msg = id).
Proof.
  destruct (select_loop_effects config ws p I) as (_ & es & Ht & Hes).
  rewrite Ht. intros Hin. apply elem_of_app in Hin as [?|Hin]; [by left|].
  right. rewrite Forall_forall in Hes.
  destruct (Hes _ Hin) as [Hs|(msg & Hmsg & Hdie & Hid & Ho)]; [done|].
  split; [done|]. by exists msg.
Qed.

Lemma opened_app (t t' : list effect) : opened (t ++ t') = (opened t + opened t')%nat.
Proof. unfold opened. by rewrite omap_app, length_app. Qed.

Lemma cancelled_app (t t' : list effect) :
  cancelled (t ++ t') = (cancelled t + cancelled t')%nat.
Proof. unfold cancelled. by rewrite omap_app, length_app. Qed.

Lemma opened_one (e : effect) :
  opened [e] = match e with Subscribe => 1 | _ => 0 end%nat.
Proof. by destruct e. Qed.

Lemma cancelled_one (e : effect) :
  cancelled [e] = match e with Cancel => 1 | _ => 0 end%nat.
Proof. by destruct e. Qed.

#[local] Arguments opened : simpl never.
#[local] Arguments cancelled : simpl never.

Lemma streaming_counts (config : Config) (ws : list wakeup) (p : Proc W) :
  opened (trace (select_loop host config ws p).2) = opened (trace p) ∧
  cancelled (trace (select_loop host config ws p).2) = cancelled (trace p).
Proof.
  destruct (select_loop_effects config ws p I) as (_ & es & Ht & Hes).
  rewrite Ht, opened_app, cancelled_app.
  assert (Hnone : opened es = 0%nat ∧ cancelled es = 0%nat).
  { clear Ht. induction Hes as [|e es He _ IH]; [done|].
    change (e :: es) with ([e] ++ es).
    rewrite opened_app, cancelled_app, opened_one, cancelled_one.
    destruct IH as [-> ->].
    destruct He as [He|(msg & _ & He)]; by destruct e. }
  destruct Hnone as [-> ->]. lia.
Qed.

Lemma start_counts (config : Config) (ws : list wakeup) (p : Proc W) :
  opened (trace (start host config ws p).2) = S (opened (trace p)) ∧
  cancelled (trace (start host config ws p).2)
  = (cancelled (trace p)
     + match (start host config ws p).1 with Val _ => 1 | _ => 0 end)%nat.
Proof.
  unfold start, mbind, M_bind. rewrite emit_run.
  pose proof (streaming_counts config ws (logged p [Subscribe])) as [Ho Hc].
  pose proof (select_loop_not_Exited host config ws (logged p [Subscribe])) as Hne.
  destruct (select_loop host config ws (logged p [Subscribe])) as [[err| |] q];
    cbn in *; [|done|].
  - rewrite opened_app, cancelled_app, Ho, Hc, opened_app, cancelled_app,
      !opened_one, !cancelled_one. lia.
  - rewrite Ho, Hc, opened_app, cancelled_app, !opened_one, !cancelled_one. lia.
Qed.

(** One turn of the loop of [main]. *)
Lemma forever_cons (config : Config) (ws : list wakeup)
    (subs : list (list wakeup)) (p : Proc W) :
  forever host config (ws :: subs) p =
    match start host config ws p with
    | (Val err, q) => forever host config subs (logged q (report err))
    | (Exited, q) => (Exited, q)
    | (Blocked, q) => (Blocked, q)
    end.
Proof.
  cbn. unfold mbind, M_bind.
  destruct (start host config ws p) as [[[e|]| |] q]; cbn; try done.
  unfold logged. cbn. rewrite app_nil_r. by destruct q.
Qed.

(** X11: subscriptions do not pile up.  Over any run of the loop of
    [main], every subscription that was opened has had its context
    cancelled, except the one on which the loop is waiting at the
    end. *)
Theorem subscriptions_balance (config : Config) (subs : list (list wakeup))
    (p : Proc W) :
  (opened (trace (forever host config subs p).2) + cancelled (trace p))%nat
  = S (opened (trace p) + cancelled (trace (forever host config subs p).2)).
Proof.
  revert p. induction subs as [|ws subs IH]; intros p.
  - assert (Heq : forever host config [] p = (Blocked, (start host config [] p).2)).
    { cbn. unfold mbind, M_bind.
      by destruct (start host config [] p) as [[err| |] q] eqn:Hs. }
    rewrite Heq. cbn [snd].
    pose proof (start_counts config [] p) as [Ho Hc].
    assert (Hb : (start host config [] p).1 = Blocked) by done.
    rewrite Hb in Hc. lia.
  - rewrite forever_cons.
    pose proof (start_counts config ws p) as [Ho Hc].
    pose proof (start_not_Exited host config ws p) as Hne.
    destruct (start host config ws p) as [[err| |] q]; cbn [fst snd] in *;
      [|done|lia].
    specialize (IH (logged q (report err))).
    assert (Hr : opened (trace (logged q (report err))) = opened (trace q) ∧
                 cancelled (trace (logged q (report err))) = cancelled (trace q)).
    { unfold logged. cbn [trace]. rewrite opened_app, cancelled_app.
      destruct err; cbn [report]; rewrite ?opened_one, ?cancelled_one;
        unfold opened, cancelled; cbn; lia. }
    destruct Hr as [Hro Hrc]. rewrite Hro, Hrc in IH. lia.
Qed.

End FurtherWatchLoopEffects.

Section FurtherEvents.
Context {W : Type} (host : Host W).


(** X13: what arrives on a subscription after the value on the error
    channel is lost: [start] and the loop of [main] run as if it had
    never arrived. *)
Theorem start_ignores_after_error (config : Config) (pre rest : list wakeup)
    (err : option error) (subs : list (list wakeup)) (p : Proc W) :
  (∀ e, RecvErr e ∉ pre) →
  start host config (pre ++ RecvErr err :: rest) p
    = start host config (pre ++ [RecvErr err]) p ∧
  forever host config ((pre ++ RecvErr err :: rest) :: subs) p
    = forever host config ((pre ++ [RecvErr err]) :: subs) p.
Proof.
  intros Hpre.
  assert (Hstart : start host config (pre ++ RecvErr err :: rest) p
                   = start host config (pre ++ [RecvErr err]) p).
  { unfold start, mbind, M_bind. rewrite emit_run.
    by rewrite !(select_loop_until_error host config pre) by done. }
  split; [exact Hstart|]. by rewrite !forever_cons, Hstart.
Qed.

Lemma onMessage_queues (config : Config) (msg : events.Message) (p : Proc W) :
  ∃ l, goroutines (onMessage host config msg p).2 = goroutines p ++ l ∧
       length l ≤ 1 ∧ Forall (queued_for config) l.
Proof.
  assert (Hnone : ∀ q : Proc W, goroutines q = goroutines p →
            ∃ l, goroutines q = goroutines p ++ l ∧
                 length l ≤ 1 ∧ Forall (queued_for config) l).
  { intros q ->. exists []. rewrite app_nil_r. cbn. by repeat split; [lia|]. }
  assert (Hone : ∀ m, length (Attachments m) = 1%nat →
            ∃ l, goroutines p ++ [(m, config)] = goroutines p ++ l ∧
                 length l ≤ 1 ∧ Forall (queued_for config) l).
  { intros m Hm. exists [(m, config)]. by repeat constructor. }
  unfold onMessage. case_bool_decide.
  { destruct (makeStartMessage msg) as [m|e] eqn:Hm; cbn.
    - apply Hone. by eapply makeStartMessage_one.
    - by apply Hnone. }
  case_bool_decide; [|by apply Hnone].
  unfold mbind, M_bind, emit, call. cbn.
  destruct (ContainerLogs host _ _ _) as [[reader|e] w]; [|by apply Hnone].
  destruct (makeDieMessage msg reader) as [m|e] eqn:Hm; cbn.
  - apply Hone. by eapply makeDieMessage_one.
  - by apply Hnone.
Qed.

(** X14: an event gives at most one delivery, and taking events in
    never removes a delivery that waits: after any run of events the
    queue is the old queue followed by at most one new entry per
    event, each with one attachment and the configuration of the
    loop. *)
Theorem intake_queues_at_most_one_per_event (config : Config)
    (msgs : list events.Message) (p : Proc W) :
  ∃ l, goroutines (select_loop host config (RecvMsg <$> msgs) p).2
       = goroutines p ++ l ∧
       length l ≤ length msgs ∧ Forall (queued_for config) l.
Proof.
  revert p. induction msgs as [|msg msgs IH]; intros p; cbn.
  { exists []. rewrite app_nil_r. by repeat split. }
  unfold mbind, M_bind.
  pose proof (onMessage_returns host config msg p) as Hr.
  destruct (onMessage_queues config msg p) as (l1 & Hq1 & Hl1 & Hf1).
  destruct (onMessage host config msg p) as [r q]. cbn in Hr, Hq1. subst r.
  destruct (IH q) as (l2 & Hq2 & Hl2 & Hf2). exists (l1 ++ l2).
  rewrite Hq2, Hq1, app_assoc, length_app. split; [done|]. split; [lia|].
  by apply Forall_app.
Qed.

(** X15: from the event to the wire.  When a die event gives a
    message, the daemon and both endpoints answer, and the scheduler
    then runs the new goroutine, the encoding of that message has been
    posted to Slack and then to Discord, nothing was printed, and the
    queue is as before the event. *)
Theorem die_event_delivered (config : Config) (msg : events.Message)
    (reader : io.Reader) (m : Message) (b : string)
    (r1 r2 : http.Response) (w1 w2 w3 : W) (p : Proc W) :
  events.Status msg = Die →
  ContainerLogs host (events.ID msg) logsOptions (world p) = (inl reader, w1) →
  makeDieMessage msg reader = inl m →
  json_Marshal host m = inl b →
  SlackURL config ≠ "" →
  DiscordURL config ≠ "" →
  http_Post host (SlackURL config) "application/json" b w1 = (inl r1, w2) →
  http_Post host (DiscordURL config) "application/json" b w2 = (inl r2, w3) →
  select_loop host config [RecvMsg msg; Run (length (goroutines p))] p =
    (Blocked,
     {| world := w3;
        trace := trace p ++ [Logs (events.ID msg) logsOptions;
                             Post (SlackURL config) "application/json" b;
                             Post (DiscordURL config) "application/json" b];
        goroutines := goroutines p |}).
Proof.
  intros Hstatus Hlogs Hmake Hb Hs Hd Hp1 Hp2.
  assert (Hbody : onMessage host config msg p =
            (Val tt, {| world := w1;
                        trace := trace p ++ [Logs (events.ID msg) logsOptions];
                        goroutines := goroutines p ++ [(m, config)] |})).
  { unfold onMessage. rewrite Hstatus.
    rewrite (bool_decide_eq_false_2 (Die = Start)) by discriminate.
    rewrite (bool_decide_eq_true_2 (Die = Die)) by done.
    unfold mbind, M_bind, emit, call. cbn. by rewrite Hlogs, Hmake. }
  cbn. rewrite (bind_Val _ _ _ _ _ Hbody).
  assert (Hrun : run_goroutine host (length (goroutines p))
                   {| world := w1;
                      trace := trace p ++ [Logs (events.ID msg) logsOptions];
                      goroutines := goroutines p ++ [(m, config)] |}
                 = (Val tt,
                    {| world := w3;
                       trace := trace p ++ [Logs (events.ID msg) logsOptions;
                                            Post (SlackURL config) "application/json" b;
                                            Post (DiscordURL config) "application/json" b];
                       goroutines := goroutines p |})).
  { unfold run_goroutine. cbn.
    rewrite lookup_app_r, Nat.sub_diag by done. cbn.
    rewrite delete_last.
    rewrite (Send_run_both host m config b _ Hb Hs Hd). cbn.
    rewrite Hp1, Hp2. unfold logged, at_world. cbn. by rewrite <- app_assoc. }
  by rewrite (bind_Val _ _ _ _ _ Hrun).
Qed.

Lemma Send_first_attempt (config : Config) (m : Message) (b : string)
    (p : Proc W) :
  json_Marshal host m = inl b →
  ¬ (SlackURL config = "" ∧ DiscordURL config = "") →
  ∃ u us, attempts (trace (Send host m config p).2) = attempts (trace p) ++ u :: us ∧
          u ≠ "" ∧
          u = (if bool_decide (SlackURL config ≠ "") then SlackURL config
               else DiscordURL config).
Proof.
  intros Hb Hboth. unfold attempts, Send. rewrite Hb. send_posts; io_step.
  all: rewrite ?omap_app; cbn; rewrite ?app_nil_r, <- ?app_assoc; cbn.
  all: try (exfalso; by apply Hboth).
  all: do 2 eexists; split; [reflexivity|]; by split.
Qed.

(** X16: a configuration that [NewConfig] accepts always gives [Send]
    something to do: once the message is encoded there is a first
    delivery attempt, to Slack if it is set and to Discord otherwise,
    and never to an empty URL. *)
Theorem NewConfig_then_Send (config : Config) (m : Message) (b : string)
    (p : Proc W) :
  NewConfig host = inl config →
  json_Marshal host m = inl b →
  ∃ u us, attempts (trace (Send host m config p).2) = attempts (trace p) ++ u :: us ∧
          u ≠ "" ∧
          u = (if bool_decide (SlackURL config ≠ "") then SlackURL config
               else DiscordURL config).
Proof.
  intros Hcfg Hb. apply (Send_first_attempt config m b p Hb).
  rewrite NewConfig_run in Hcfg.
  case_bool_decide as Hboth; [done|]. by injection Hcfg as <-.
Qed.

End FurtherEvents.

(** ** The further properties on simulated runs *)

Lemma Send_silent_means_delivered_witness :
  attempts (trace (Send both_500 sim.hello sim.both sim.boot).2)
  = [sim.slack; sim.discord].
Proof.
  exact (proj2 (proj2 (Send_silent_means_delivered both_500 sim.hello sim.both
                         sim.boot) eq_refl)).
Defined.

Lemma Send_single_endpoint_witness :
  trace (Send both_500 sim.hello slack_only sim.boot).2
  = [Post sim.slack "application/json" "Container started."] ∧
  trace (Send slack_down sim.hello discord_only sim.boot).2
  = [Post sim.discord "application/json" "Container started."].
Proof.
  split.
  - refine (proj1 (Send_single_endpoint both_500 sim.hello slack_only
                     (sim.wire sim.hello) sim.boot eq_refl) _ eq_refl).
    discriminate.
  - refine (proj1 (proj2 (Send_single_endpoint slack_down sim.hello discord_only
                            (sim.wire sim.hello) sim.boot eq_refl)) eq_refl _).
    discriminate.
Defined.

Lemma makeDieMessage_outcome_witness :
  makeDieMessage web1_died_no_code (io.Failed "unexpected EOF") = inr "no exitCode".
Proof.
  exact (proj1 (proj2 (makeDieMessage_outcome web1_died_no_code
                         (io.Failed "unexpected EOF"))) eq_refl).
Defined.

Lemma forever_stays_within_bounds_witness :
  Forall (queued_for sim.both)
    (goroutines (forever both_500 sim.both
                   [[RecvMsg web1_started; RecvMsg web1_died]] sim.boot).2).
Proof.
  apply (forever_stays_within_bounds both_500 sim.both
           [[RecvMsg web1_started; RecvMsg web1_died]] sim.boot).
  cbn. constructor.
Defined.

Lemma main_posts_only_to_environment_witness :
  Post sim.discord "application/json"
       "Container started. name => web1 image => nginx:latest" ∈ trace sim.boot ∨
  ("application/json" = "application/json" ∧ sim.discord ≠ "" ∧
   (sim.discord = os_Getenv both_500 "SLACK_URL" ∨
    sim.discord = os_Getenv both_500 "DISCORD_URL")).
Proof.
  apply (main_posts_only_to_environment both_500
           [[RecvMsg web1_started; Run 0]] sim.boot); [reflexivity|].
  vm_compute.
  repeat first [apply list_elem_of_here | apply list_elem_of_further].
Defined.

Lemma logs_requested_only_for_die_witness :
  Logs "4f1c" logsOptions ∈ trace sim.boot ∨
  (logsOptions = {| types.Since := "30s"; types.ShowStdout := true;
                    types.ShowStderr := true |} ∧
   ∃ msg, RecvMsg msg ∈ [RecvMsg web1_started; RecvMsg web1_died] ∧
          events.Status msg = Die ∧ events.ID msg = "4f1c").
Proof.
  apply (logs_requested_only_for_die both_500 sim.both
           [RecvMsg web1_started; RecvMsg web1_died] sim.boot).
  vm_compute.
  repeat first [apply list_elem_of_here | apply list_elem_of_further].
Defined.


Lemma start_ignores_after_error_witness :
  start both_500 sim.both
        ([RecvMsg web1_started] ++ RecvErr None :: [RecvMsg web1_died; Run 0])
        sim.boot
  = start both_500 sim.both ([RecvMsg web1_started] ++ [RecvErr None]) sim.boot.
Proof.
  assert (Hpre : ∀ e, RecvErr e ∉ [RecvMsg web1_started]).
  { intros e He. apply elem_of_cons in He as [He|He]; [discriminate He|].
    by apply elem_of_nil in He. }
  exact (proj1 (start_ignores_after_error both_500 sim.both
                  [RecvMsg web1_started] [RecvMsg web1_died; Run 0] None []
                  sim.boot Hpre)).
Defined.

Lemma die_event_delivered_witness :
  select_loop logs_chunked sim.both [RecvMsg web1_died; Run 0] sim.boot
  = (Blocked,
     {| world := 3%nat;
        trace :=
          [Logs "4f1c" logsOptions;
           Post sim.slack "application/json"
                "Container died. name => web1 image => nginx:latest status code => 137";
           Post sim.discord "application/json"
                "Container died. name => web1 image => nginx:latest status code => 137"];
        goroutines := [] |}).
Proof.
  assert (Hs : SlackURL sim.both ≠ "") by discriminate.
  assert (Hd : DiscordURL sim.both ≠ "") by discriminate.
  exact (die_event_delivered logs_chunked sim.both web1_died
           (chunked ["oom-"; "killed"] io.EOF)
           {| Message_Text := "";
              Attachments :=
                [set_Text
                   (Attachment_lit
                      "Container died. name => web1 image => nginx:latest status code => 137"
                      DieColor 2000)
                   "```oom-killed```"] |}
           "Container died. name => web1 image => nginx:latest status code => 137"
           {| http.StatusCode := 204 |} {| http.StatusCode := 204 |}
           1%nat 2%nat 3%nat sim.boot
           eq_refl eq_refl eq_refl eq_refl Hs Hd eq_refl eq_refl).
Defined.

Lemma NewConfig_then_Send_witness :
  ∃ u us, attempts (trace (Send slack_down sim.hello sim.both sim.boot).2)
          = attempts (trace sim.boot) ++ u :: us ∧
          u ≠ "" ∧
          u = (if bool_decide (SlackURL sim.both ≠ "") then SlackURL sim.both
               else DiscordURL sim.both).
Proof.
  exact (NewConfig_then_Send slack_down sim.both sim.hello (sim.wire sim.hello)
           sim.boot eq_refl eq_refl).
Defined.
